(** * Search, filter and pagination core of the marketplace catalog

    Shallow embedding of
    - [src/src/lib/validations.ts]: [SearchParamsSchema], [sanitizeString],
      [sanitizeNumber], [sanitizeSearchQuery], [processSearchParams];
    - [src/src/services/searchService.ts]: [buildWhereClause], [search],
      [generateFacets] and the Prisma queries it issues;
    - [src/src/services/paginationService.ts]: [calculatePagination],
      [generatePageNumbers], [validatePageNumber];
    - [src/unnamed/part_003] ([FilterService]): [urlParamsToFilterState],
      [filterStateToUrlParams].

    Modelling conventions.
    - JavaScript strings are [String.string] (one [ascii] per code unit);
      [trim] removes the ASCII white space of ECMAScript [WhiteSpace] and
      [LineTerminator].
    - JavaScript numbers (prices, pages) are modelled as integers [Z].
      [Number(s)] on strings is a parameter of the development
      ([Number_str], [None] standing for [NaN]), so the sanitizer facts hold
      for every string-to-number conversion; [js_Number] is a concrete one
      for decimal integers, used in the examples.
    - Prisma's [mode: 'insensitive'] compares ASCII-lowercased strings;
      [contains] is a substring test and [equals] an equality test. *)

From Stdlib Require Import String Ascii List ZArith Bool Btauto Lia.
From Stdlib Require Import QArith Qround DecimalString DecimalZ DecimalPos.
From Stdlib Require Import Sorting Permutation Lqa.
Import ListNotations.

Local Open Scope list_scope.
Local Open Scope string_scope.
Local Open Scope Z_scope.

(** ** JavaScript string primitives *)

Definition is_js_space (c : ascii) : bool :=
  let n := nat_of_ascii c in
  ((9 <=? n) && (n <=? 13))%nat || (n =? 32)%nat.

Fixpoint trim_start (s : string) : string :=
  match s with
  | EmptyString => EmptyString
  | String c r => if is_js_space c then trim_start r else s
  end.

Definition str_rev (s : string) : string :=
  string_of_list_ascii (List.rev (list_ascii_of_string s)).

(** [String.prototype.trim] *)
Definition trim (s : string) : string :=
  str_rev (trim_start (str_rev (trim_start s))).

(** [s.slice(0, n)] *)
Definition slice0 (s : string) (n : nat) : string := substring 0 n s.

(** JavaScript truthiness of a string: the empty string is falsy. *)
Definition truthy (s : string) : bool := negb (String.eqb s "").

Definition lower_ascii (c : ascii) : ascii :=
  let n := nat_of_ascii c in
  if ((65 <=? n) && (n <=? 90))%nat then ascii_of_nat (n + 32) else c.

Fixpoint lower (s : string) : string :=
  match s with
  | EmptyString => EmptyString
  | String c r => String (lower_ascii c) (lower r)
  end.

(** [hay.includes(sub)] *)
Fixpoint contains (sub hay : string) : bool :=
  prefix sub hay ||
  match hay with
  | EmptyString => false
  | String _ r => contains sub r
  end.

(** Prisma's [{ contains: q, mode: 'insensitive' }] and
    [{ equals: v, mode: 'insensitive' }]. *)
Definition contains_insensitive (q field : string) : bool :=
  contains (lower q) (lower field).

Definition equals_insensitive (v field : string) : bool :=
  String.eqb (lower v) (lower field).

(** ** A concrete [Number(string)] for decimal integers

    ECMAScript [StringToNumber] restricted to optionally signed decimal
    integers: surrounding white space is ignored and the empty string is
    [0]; every other syntax is [NaN] ([None]) here. *)

Definition digit_val (c : ascii) : option Z :=
  let n := nat_of_ascii c in
  if ((48 <=? n) && (n <=? 57))%nat then Some (Z.of_nat (n - 48)) else None.

Fixpoint digits_acc (s : string) (acc : Z) : option Z :=
  match s with
  | EmptyString => Some acc
  | String c r =>
      match digit_val c with
      | Some d => digits_acc r (acc * 10 + d)
      | None => None
      end
  end.

Definition unsigned_decimal (s : string) : option Z :=
  if String.eqb s "" then None else digits_acc s 0.

Definition js_Number (s : string) : option Z :=
  match trim s with
  | EmptyString => Some 0
  | String c r =>
      if Ascii.eqb c "-"%char then option_map Z.opp (unsigned_decimal r)
      else if Ascii.eqb c "+"%char then unsigned_decimal r
      else unsigned_decimal (String c r)
  end.

(** ** Plain JavaScript objects

    An object is an association list; [obj_set] is the assignment
    [o[k] = v] (it overwrites an existing key in place). *)

Section Obj.
Variable V : Type.

Fixpoint obj_get (o : list (string * V)) (k : string) : option V :=
  match o with
  | [] => None
  | (k', v) :: r => if String.eqb k k' then Some v else obj_get r k
  end.

Fixpoint obj_set (o : list (string * V)) (k : string) (v : V)
  : list (string * V) :=
  match o with
  | [] => [(k, v)]
  | (k', v') :: r =>
      if String.eqb k k' then (k, v) :: r else (k', v') :: obj_set r k v
  end.

End Obj.

Arguments obj_get {V} o k.
Arguments obj_set {V} o k v.

(** A value handed to a zod schema: the sanitizer passes strings (from the
    URL) and numbers (from its salvage path). *)
Inductive jsval :=
| JStr (s : string)
| JNum (n : Z).

(** [SearchParams], the output type of [SearchParamsSchema]: [page] has a
    default, [limit] is [optional(default(20))] and so may be absent. *)
Record SearchParams := {
  sp_q : option string;
  sp_category : option string;
  sp_min : option Z;
  sp_max : option Z;
  sp_location : option string;
  sp_page : Z;
  sp_limit : option Z
}.

(** The hard default [{ page: 1, limit: 20 }]. *)
Definition default_params : SearchParams :=
  {| sp_q := None; sp_category := None; sp_min := None; sp_max := None;
     sp_location := None; sp_page := 1; sp_limit := Some 20 |}.

(** ** [SearchParamsSchema] (validations.ts, lines 4-20) *)

Section Zod.
Variable Number_str : string -> option Z.

(** [z.string().trim().max(mx).optional()] *)
Definition zstring_trim_max (mx : nat) (v : option jsval)
  : option (option string) :=
  match v with
  | None => Some None
  | Some (JStr s) =>
      let t := trim s in
      if (String.length t <=? mx)%nat then Some (Some t) else None
  | Some (JNum _) => None
  end.

(** [z.coerce.number()]: [Number(input)], [NaN] rejected. *)
Definition coerce_number (v : jsval) : option Z :=
  match v with
  | JStr s => Number_str s
  | JNum n => Some n
  end.

(** [z.coerce.number().min(lo).max(hi)] *)
Definition znumber_range (lo hi : Z) (v : jsval) : option Z :=
  match coerce_number v with
  | Some n => if (lo <=? n) && (n <=? hi) then Some n else None
  | None => None
  end.

(** [.optional()]: [undefined] passes as [undefined]. *)
Definition zoptional {A} (f : jsval -> option A) (v : option jsval)
  : option (option A) :=
  match v with
  | None => Some None
  | Some x => option_map Some (f x)
  end.

(** [.default(d)]: [undefined] becomes [d]. *)
Definition zdefault {A} (d : A) (f : jsval -> option A) (v : option jsval)
  : option A :=
  match v with
  | None => Some d
  | Some x => f x
  end.

(** The [.refine] of the schema: [min <= max] when both are present. *)
Definition min_le_max (mn mx : option Z) : bool :=
  match mn, mx with
  | Some a, Some b => a <=? b
  | _, _ => true
  end.

(** [SearchParamsSchema.safeParse(o)]: [None] is [success: false]. *)
Definition SearchParamsSchema_safeParse (o : list (string * jsval))
  : option SearchParams :=
  match zstring_trim_max 200 (obj_get o "q"),
        zstring_trim_max 100 (obj_get o "category"),
        zoptional (znumber_range 0 1000000) (obj_get o "min"),
        zoptional (znumber_range 0 1000000) (obj_get o "max"),
        zstring_trim_max 100 (obj_get o "location"),
        zdefault 1 (znumber_range 1 1000) (obj_get o "page"),
        zoptional (fun x => zdefault 20 (znumber_range 1 100) (Some x))
          (obj_get o "limit") with
  | Some q, Some c, Some mn, Some mx, Some l, Some p, Some lim =>
      if min_le_max mn mx then
        Some {| sp_q := q; sp_category := c; sp_min := mn; sp_max := mx;
                sp_location := l; sp_page := p; sp_limit := lim |}
      else None
  | _, _, _, _, _, _, _ => None
  end.

End Zod.

(** ** [processSearchParams] (validations.ts, lines 358-454) *)

(** The two input shapes: a [URLSearchParams] (its entries in order) or a
    [Record<string, string | string[]>]. *)
Inductive rawval :=
| RStr (s : string)
| RArr (l : list string).

Inductive raw_input :=
| FromURLSearchParams (entries : list (string * string))
| FromRecord (entries : list (string * rawval)).

(** [sanitizeString(input, maxLength)] *)
Definition sanitizeString (input : string) (maxLength : nat) : string :=
  slice0 (trim input) maxLength.

Section Process.
Variable Number_str : string -> option Z.
(** [decodeURIComponent]; [None] is a thrown [URIError]. *)
Variable decodeURIComponent : string -> option string.

Definition safeDecodeURIComponent (s : string) : string :=
  match decodeURIComponent s with
  | Some d => d
  | None => s
  end.

Definition store (acc : list (string * string)) (k v : string) :=
  obj_set acc k (sanitizeString (safeDecodeURIComponent v) 1000).

(** The loop filling [params] (lines 361-392). *)
Definition collect_params (r : raw_input) : list (string * string) :=
  match r with
  | FromURLSearchParams es =>
      fold_left (fun acc '(k, v) => store acc k v) es []
  | FromRecord es =>
      fold_left (fun acc '(k, v) =>
        match v with
        | RArr (first :: _) => if truthy first then store acc k first else acc
        | RArr [] => acc
        | RStr s => if truthy s then store acc k s else acc
        end) es []
  end.

Definition as_object (params : list (string * string)) :=
  map (fun '(k, v) => (k, JStr v)) params.

(** [if (params.k && typeof params.k === 'string') salvaged.k = params.k] *)
Definition salvage_string (params : list (string * string)) (k : string)
  (acc : list (string * jsval)) :=
  match obj_get params k with
  | Some v => if truthy v then obj_set acc k (JStr v) else acc
  | None => acc
  end.

(** [if (params.k && !isNaN(Number(params.k))) { n = Number(params.k);
    if (lo <= n && n <= hi) salvaged.k = n }] *)
Definition salvage_number (params : list (string * string)) (k : string)
  (lo hi : Z) (acc : list (string * jsval)) :=
  match obj_get params k with
  | Some v =>
      if truthy v then
        match Number_str v with
        | Some n =>
            if (lo <=? n) && (n <=? hi) then obj_set acc k (JNum n) else acc
        | None => acc
        end
      else acc
  | None => acc
  end.

(** The salvage path (lines 403-434); [limit] is not salvaged. *)
Definition salvage (params : list (string * string)) : list (string * jsval) :=
  salvage_number params "page" 1 1000
    (salvage_number params "max" 0 1000000
      (salvage_number params "min" 0 1000000
        (salvage_string params "location"
          (salvage_string params "category"
            (salvage_string params "q" []))))).

Definition processSearchParams (r : raw_input) : SearchParams :=
  let params := collect_params r in
  match SearchParamsSchema_safeParse Number_str (as_object params) with
  | Some d => d
  | None =>
      match SearchParamsSchema_safeParse Number_str (salvage params) with
      | Some d => d
      | None => default_params
      end
  end.

End Process.

(** ** The catalog and the search service (searchService.ts) *)

(** A [Product] row; [images] and [slug] play no part in searching and are
    left out. [createdAt] is a timestamp. *)
Record Product := {
  pr_id : string;
  pr_title : string;
  pr_description : string;
  pr_price : Z;
  pr_category : string;
  pr_location : string;
  pr_createdAt : Z
}.

(** [sanitizeSearchQuery] (validations.ts, lines 182-187): trim, remove
    the characters less-than, greater-than, double quote, apostrophe and
    ampersand (codes 60, 62, 34, 39, 38), keep 200 characters. *)
Definition is_harmful (c : ascii) : bool :=
  let n := nat_of_ascii c in
  (n =? 60)%nat || (n =? 62)%nat || (n =? 34)%nat || (n =? 39)%nat
  || (n =? 38)%nat.

Fixpoint remove_harmful (s : string) : string :=
  match s with
  | EmptyString => EmptyString
  | String c r => if is_harmful c then remove_harmful r
                  else String c (remove_harmful r)
  end.

Definition sanitizeSearchQuery (query : string) : string :=
  slice0 (remove_harmful (trim query)) 200.

(** A Prisma [where] object as built by the service: the keyword [OR]
    group, the [category] and [location] clauses and the [price] range. *)
Record PriceFilter := { gte : option Z; lte : option Z }.

Record Where := {
  w_OR : option string;
  w_category : option string;
  w_location : option string;
  w_price : option PriceFilter
}.

(** How the database evaluates a [where] object on a row. *)
Definition where_matches (w : Where) (p : Product) : bool :=
  match w_OR w with
  | Some s => contains_insensitive s (pr_title p)
              || contains_insensitive s (pr_description p)
  | None => true
  end &&
  match w_category w with
  | Some c => equals_insensitive c (pr_category p)
  | None => true
  end &&
  match w_location w with
  | Some l => equals_insensitive l (pr_location p)
  | None => true
  end &&
  match w_price w with
  | Some pf =>
      match gte pf with Some a => a <=? pr_price p | None => true end &&
      match lte pf with Some b => pr_price p <=? b | None => true end
  | None => true
  end.

(** [params.k && {...}]: a clause only for a truthy string. *)
Definition opt_truthy (o : option string) : option string :=
  match o with
  | Some s => if truthy s then Some s else None
  | None => None
  end.

Definition keyword_clause (sanitizedQuery : string) : option string :=
  if truthy sanitizedQuery then Some sanitizedQuery else None.

(** [buildPriceFilter(min, max)] (lines 273-287) *)
Definition buildPriceFilter (mn mx : option Z) : option PriceFilter :=
  match mn, mx with
  | None, None => None
  | _, _ => Some {| gte := mn; lte := mx |}
  end.

(** [x !== undefined] *)
Definition is_defined {A} (o : option A) : bool :=
  match o with
  | Some _ => true
  | None => false
  end.

(** [buildWhereClause(params, sanitizedQuery)] (lines 61-110) *)
Definition buildWhereClause (params : SearchParams) (sanitizedQuery : string)
  : Where :=
  {| w_OR := keyword_clause sanitizedQuery;
     w_category := opt_truthy (sp_category params);
     w_location := opt_truthy (sp_location params);
     w_price :=
       if is_defined (sp_min params) || is_defined (sp_max params)
       then Some {| gte := sp_min params; lte := sp_max params |}
       else None |}.

(** Stable insertion sort, used for the [orderBy] of the queries. *)
Section Sort.
Variable A : Type.
Variable before : A -> A -> bool.

Fixpoint insert_by (x : A) (l : list A) : list A :=
  match l with
  | [] => [x]
  | y :: r => if before y x then y :: insert_by x r else x :: y :: r
  end.

Fixpoint sort_by (l : list A) : list A :=
  match l with
  | [] => []
  | x :: r => insert_by x (sort_by r)
  end.
End Sort.

Arguments insert_by {A} before x l.
Arguments sort_by {A} before l.

(** [orderBy: [{ createdAt: 'desc' }, { id: 'asc' }]] *)
Definition product_before (a b : Product) : bool :=
  (pr_createdAt b <? pr_createdAt a)
  || ((pr_createdAt a =? pr_createdAt b)
      && match String.compare (pr_id a) (pr_id b) with
         | Gt => false
         | _ => true
         end).

(** [executeProductSearch(where, skip, limit)] (lines 115-135) *)
Definition executeProductSearch (catalog : list Product) (w : Where)
  (skip limit : Z) : list Product :=
  firstn (Z.to_nat limit)
    (skipn (Z.to_nat skip)
       (sort_by product_before (filter (where_matches w) catalog))).

(** [getProductCount(where)] (lines 140-148) *)
Definition getProductCount (catalog : list Product) (w : Where) : nat :=
  length (filter (where_matches w) catalog).

(** [groupBy({ by: [k], where, _count })] ordered by the count, descending:
    one group per distinct value of the column, in order of first
    appearance, then stably sorted by count. *)
Fixpoint distinct (l : list string) : list string :=
  match l with
  | [] => []
  | x :: r => x :: filter (fun y => negb (String.eqb y x)) (distinct r)
  end.

Definition count_value (key : Product -> string) (ps : list Product)
  (v : string) : nat :=
  length (filter (fun p => String.eqb (key p) v) ps).

Definition group_count (key : Product -> string) (ps : list Product)
  : list (string * nat) :=
  sort_by (fun a b => (snd b <? snd a)%nat)
    (map (fun v => (v, count_value key ps v)) (distinct (map key ps))).

(** [getCategoryFacets] and [getLocationFacets] (lines 207-248) *)
Definition getCategoryFacets (catalog : list Product) (w : Where) :=
  group_count pr_category (filter (where_matches w) catalog).

Definition getLocationFacets (catalog : list Product) (w : Where) :=
  group_count pr_location (filter (where_matches w) catalog).

(** [aggregate({ _min: { price }, _max: { price } })]: [null] on no row. *)
Definition aggregate_min (ps : list Product) : option Z :=
  fold_right (fun p acc => match acc with
                           | None => Some (pr_price p)
                           | Some m => Some (Z.min (pr_price p) m)
                           end) None ps.

Definition aggregate_max (ps : list Product) : option Z :=
  fold_right (fun p acc => match acc with
                           | None => Some (pr_price p)
                           | Some m => Some (Z.max (pr_price p) m)
                           end) None ps.

(** [x || 0] on a nullable number *)
Definition or_zero (x : option Z) : Z :=
  match x with
  | Some v => if v =? 0 then 0 else v
  | None => 0
  end.

(** [getPriceRange(where)] (lines 253-268) *)
Definition getPriceRange (catalog : list Product) (w : Where) : Z * Z :=
  let ps := filter (where_matches w) catalog in
  (or_zero (aggregate_min ps), or_zero (aggregate_max ps)).

Record Facets := {
  f_categories : list (string * nat);
  f_locations : list (string * nat);
  f_priceRange : Z * Z
}.

(** The three [where] objects of [generateFacets] (lines 153-202): each
    leaves out the dimension it describes. *)
Definition categoryFacetWhere (params : SearchParams) (sq : string) : Where :=
  {| w_OR := keyword_clause sq; w_category := None;
     w_location := opt_truthy (sp_location params);
     w_price := buildPriceFilter (sp_min params) (sp_max params) |}.

Definition locationFacetWhere (params : SearchParams) (sq : string) : Where :=
  {| w_OR := keyword_clause sq;
     w_category := opt_truthy (sp_category params); w_location := None;
     w_price := buildPriceFilter (sp_min params) (sp_max params) |}.

Definition priceRangeWhere (params : SearchParams) (sq : string) : Where :=
  {| w_OR := keyword_clause sq;
     w_category := opt_truthy (sp_category params);
     w_location := opt_truthy (sp_location params); w_price := None |}.

Definition generateFacets (catalog : list Product) (params : SearchParams)
  (sq : string) : Facets :=
  {| f_categories := getCategoryFacets catalog (categoryFacetWhere params sq);
     f_locations := getLocationFacets catalog (locationFacetWhere params sq);
     f_priceRange := getPriceRange catalog (priceRangeWhere params sq) |}.

Record SearchResult := {
  products : list Product;
  totalCount : nat;
  facets : Facets
}.

(** The JavaScript object of a [SearchParams] value: a key per defined
    field. *)
Definition opt_field (k : string) (v : option jsval)
  (rest : list (string * jsval)) : list (string * jsval) :=
  match v with
  | Some x => (k, x) :: rest
  | None => rest
  end.

Definition params_object (p : SearchParams) : list (string * jsval) :=
  opt_field "q" (option_map JStr (sp_q p))
  (opt_field "category" (option_map JStr (sp_category p))
  (opt_field "min" (option_map JNum (sp_min p))
  (opt_field "max" (option_map JNum (sp_max p))
  (opt_field "location" (option_map JStr (sp_location p))
  (("page", JNum (sp_page p))
   :: opt_field "limit" (option_map JNum (sp_limit p)) []))))).

Section Search.
Variable Number_str : string -> option Z.

(** [validateSearchParams(params)]: [None] is a thrown [ValidationError]. *)
Definition validateSearchParams (p : SearchParams) : option SearchParams :=
  SearchParamsSchema_safeParse Number_str (params_object p).

Definition sanitized_query (vp : SearchParams) : string :=
  match sp_q vp with
  | Some q => if truthy q then sanitizeSearchQuery q else ""
  | None => ""
  end.

(** [SearchService.search(params)] (lines 22-56); [None] is a thrown
    [SearchError]. *)
Definition search (catalog : list Product) (params : SearchParams)
  : option SearchResult :=
  match validateSearchParams params with
  | None => None
  | Some vp =>
      let sq := sanitized_query vp in
      let w := buildWhereClause vp sq in
      let page := if sp_page vp =? 0 then 1 else sp_page vp in
      let limit := match sp_limit vp with
                   | Some l => if l =? 0 then 20 else l
                   | None => 20
                   end in
      let skip := (page - 1) * limit in
      Some {| products := executeProductSearch catalog w skip limit;
              totalCount := getProductCount catalog w;
              facets := generateFacets catalog vp sq |}
  end.

End Search.

(** ** The pagination service (paginationService.ts) *)

Record PaginationMetadata := {
  pm_totalCount : Z;
  pm_totalPages : Z;
  pm_currentPage : Z;
  pm_pageSize : Z;
  pm_hasNextPage : bool;
  pm_hasPreviousPage : bool;
  pm_startIndex : Z;
  pm_endIndex : Z;
  pm_isFirstPage : bool;
  pm_isLastPage : bool;
  pm_nextPage : option Z;
  pm_previousPage : option Z
}.

(** [calculatePagination(totalCount, currentPage, pageSize)] (lines 18-39);
    [Math.ceil(totalCount / pageSize)] is the ceiling of the rational
    quotient. *)
Definition calculatePagination (totalCount currentPage pageSize : Z)
  : PaginationMetadata :=
  let totalPages := Qceiling (inject_Z totalCount / inject_Z pageSize) in
  let hasNextPage := currentPage <? totalPages in
  let hasPreviousPage := 1 <? currentPage in
  {| pm_totalCount := totalCount;
     pm_totalPages := totalPages;
     pm_currentPage := currentPage;
     pm_pageSize := pageSize;
     pm_hasNextPage := hasNextPage;
     pm_hasPreviousPage := hasPreviousPage;
     pm_startIndex := (currentPage - 1) * pageSize + 1;
     pm_endIndex := Z.min (currentPage * pageSize) totalCount;
     pm_isFirstPage := currentPage =? 1;
     pm_isLastPage := currentPage =? totalPages;
     pm_nextPage := if hasNextPage then Some (currentPage + 1) else None;
     pm_previousPage := if hasPreviousPage then Some (currentPage - 1)
                        else None |}.

(** An entry of [Array<number | 'ellipsis'>]. *)
Inductive PageItem :=
| PageNum (n : Z)
| Ellipsis.

(** The pages [a, a+1, ..., b] of a [for (let i = a; i <= b; i++)] loop. *)
Definition range_incl (a b : Z) : list Z :=
  map (fun i => a + Z.of_nat i) (seq 0 (Z.to_nat (b - a + 1))).

(** [generatePageNumbers(currentPage, totalPages, maxVisible)]
    (lines 45-87) *)
Definition generatePageNumbers (currentPage totalPages maxVisible : Z)
  : list PageItem :=
  if totalPages <=? maxVisible then
    map (fun i => PageNum (Z.of_nat i + 1)) (seq 0 (Z.to_nat totalPages))
  else
    let halfVisible := maxVisible / 2 in
    let middle :=
      if currentPage <=? halfVisible + 2 then
        (map PageNum (range_incl 2 (Z.min (maxVisible - 1) (totalPages - 1)))
         ++ (if maxVisible - 1 <? totalPages then [Ellipsis] else []))%list
      else if totalPages - halfVisible - 1 <=? currentPage then
        ((if maxVisible - 1 <? totalPages then [Ellipsis] else [])
         ++ map PageNum
              (range_incl (Z.max (totalPages - maxVisible + 2) 2)
                 (totalPages - 1)))%list
      else
        ([Ellipsis]
         ++ map PageNum (range_incl (currentPage - halfVisible + 1)
                           (currentPage + halfVisible - 1))
         ++ [Ellipsis])%list in
    ([PageNum 1] ++ middle
     ++ (if 1 <? totalPages then [PageNum totalPages] else []))%list.

(** [validatePageNumber(page, totalPages)] (lines 92-96) *)
Definition validatePageNumber (page totalPages : Z) : Z :=
  if page <? 1 then 1
  else if (totalPages <? page) && (0 <? totalPages) then totalPages
  else page.

(** ** The filter service ([FilterService], src/unnamed/part_003) *)

Record PriceRange := { pr_min : Z; pr_max : Z }.

Record FilterState := {
  fs_query : string;
  fs_category : string;
  fs_location : string;
  fs_priceRange : PriceRange
}.

Section FilterService.
(** [Number.prototype.toString] and [parseFloat]; [None] is [NaN]. *)
Variable Number_toString : Z -> string.
Variable parseFloat : string -> option Z.

(** [sanitizeNumber(input, min, max)] (validations.ts, lines 171-177);
    [None] is the thrown ["Invalid number format"]. *)
Definition sanitizeNumber (input : option Z) (lo hi : Z) : option Z :=
  match input with
  | Some num => Some (Z.max lo (Z.min hi num))
  | None => None
  end.

(** [getFirstValue] *)
Definition getFirstValue (v : option rawval) : string :=
  match v with
  | Some (RArr l) => hd "" l
  | Some (RStr s) => s
  | None => ""
  end.

(** [if (param) price = sanitizeNumber(parseFloat(param), 0, 1000000)] *)
Definition parse_price (param : string) : option Z :=
  if truthy param then sanitizeNumber (parseFloat param) 0 1000000
  else Some 0.

(** [urlParamsToFilterState(searchParams)] (lines 21-62) *)
Definition urlParamsToFilterState (searchParams : list (string * rawval))
  : FilterState :=
  let query := sanitizeString (getFirstValue (obj_get searchParams "q")) 200 in
  let category :=
    sanitizeString (getFirstValue (obj_get searchParams "category")) 100 in
  let location :=
    sanitizeString (getFirstValue (obj_get searchParams "location")) 100 in
  let prices :=
    match parse_price (getFirstValue (obj_get searchParams "min")) with
    | None => (0, 0)
    | Some minPrice =>
        match parse_price (getFirstValue (obj_get searchParams "max")) with
        | None => (0, 0)
        | Some maxPrice => (minPrice, maxPrice)
        end
    end in
  {| fs_query := query; fs_category := category; fs_location := location;
     fs_priceRange := {| pr_min := fst prices; pr_max := snd prices |} |}.

(** [filterStateToUrlParams(filters)] (lines 67-91) *)
Definition filterStateToUrlParams (filters : FilterState)
  : list (string * string) :=
  let p0 := [] in
  let p1 := if truthy (trim (fs_query filters))
            then obj_set p0 "q" (trim (fs_query filters)) else p0 in
  let p2 := if truthy (trim (fs_category filters))
            then obj_set p1 "category" (trim (fs_category filters)) else p1 in
  let p3 := if truthy (trim (fs_location filters))
            then obj_set p2 "location" (trim (fs_location filters)) else p2 in
  let p4 := if 0 <? pr_min (fs_priceRange filters)
            then obj_set p3 "min"
                   (Number_toString (pr_min (fs_priceRange filters)))
            else p3 in
  if 0 <? pr_max (fs_priceRange filters)
  then obj_set p4 "max" (Number_toString (pr_max (fs_priceRange filters)))
  else p4.

End FilterService.

(** A [Record<string, string>] read as a
    [Record<string, string | string[] | undefined>]. *)
Definition record_of_strings (l : list (string * string))
  : list (string * rawval) :=
  map (fun kv => (fst kv, RStr (snd kv))) l.

(** A concrete decimal [toString] and [parseFloat] pair for non-negative
    integers, for the examples. *)
Definition decimal_toString (n : Z) : string :=
  NilEmpty.string_of_int (Z.to_int n).

Definition decimal_parse (s : string) : option Z :=
  option_map Z.of_int (NilEmpty.int_of_string s).

(** ** Statements of the spec over the search service *)

(** [{ ...params, category: X }]: the same request with category [X]. *)
Definition with_category (p : SearchParams) (c : string) : SearchParams :=
  {| sp_q := sp_q p; sp_category := Some c; sp_min := sp_min p;
     sp_max := sp_max p; sp_location := sp_location p; sp_page := sp_page p;
     sp_limit := sp_limit p |}.

(** The spec's filter dimensions, a dimension given as the empty string
    imposing nothing (the code's truthiness tests). *)
Definition satisfies_filters (params : SearchParams) (p : Product) : Prop :=
  (forall q, sp_q params = Some q -> q <> "" ->
     contains_insensitive (sanitizeSearchQuery q) (pr_title p) = true
     \/ contains_insensitive (sanitizeSearchQuery q) (pr_description p) = true)
  /\ (forall c, sp_category params = Some c -> c <> "" ->
        equals_insensitive c (pr_category p) = true)
  /\ (forall l, sp_location params = Some l -> l <> "" ->
        equals_insensitive l (pr_location p) = true)
  /\ (forall a, sp_min params = Some a -> a <= pr_price p)
  /\ (forall b, sp_max params = Some b -> pr_price p <= b).

Definition no_filter_supplied (params : SearchParams) : Prop :=
  opt_truthy (sp_q params) = None /\ opt_truthy (sp_category params) = None
  /\ opt_truthy (sp_location params) = None /\ sp_min params = None
  /\ sp_max params = None.

(** The keyword, category and location filters, without the price
    bounds. *)
Definition matches_keyword_category_location (params : SearchParams)
  (sq : string) (p : Product) : bool :=
  (if String.eqb sq "" then true
   else contains_insensitive sq (pr_title p)
        || contains_insensitive sq (pr_description p))
  && match sp_category params with
     | Some c => if String.eqb c "" then true
                 else equals_insensitive c (pr_category p)
     | None => true
     end
  && match sp_location params with
     | Some l => if String.eqb l "" then true
                 else equals_insensitive l (pr_location p)
     | None => true
     end.

(** ** The rest of the pagination service (paginationService.ts) *)

(** [calculateOffset(page, pageSize)] (lines 101-103) *)
Definition calculateOffset (page pageSize : Z) : Z := (page - 1) * pageSize.

(** [isPaginationNeeded(totalCount, pageSize)] (lines 127-129) *)
Definition isPaginationNeeded (totalCount pageSize : Z) : bool :=
  pageSize <? totalCount.

(** [getPageSizeOptions()] (lines 134-141) *)
Definition getPageSizeOptions : list (Z * string) :=
  [(10, "10 per page"); (20, "20 per page"); (50, "50 per page");
   (100, "100 per page")].

(** [validatePageSize(pageSize)] (lines 146-152) *)
Definition validSizes : list Z := [10; 20; 50; 100].

Definition validatePageSize (pageSize : Z) : Z :=
  if existsb (Z.eqb pageSize) validSizes then pageSize else 20.

(** [Math.round(x)]: the floor of [x + 1/2]. *)
Definition Math_round (x : Q) : Z := Qfloor (x + (1 # 2))%Q.

(** [estimateLoadTime(pageSize)] (lines 213-216) *)
Definition estimateLoadTime (pageSize : Z) : Z := Z.max 100 (pageSize * 10).

Record PerformanceMetrics := {
  pf_totalPages : Z;
  pf_loadedItems : Z;
  pf_loadedPercentage : Q;
  pf_remainingItems : Z;
  pf_estimatedLoadTime : Z
}.

(** [calculatePerformanceMetrics(totalCount, pageSize, currentPage)]
    (lines 196-208); the percentage is a rational number. *)
Definition calculatePerformanceMetrics (totalCount pageSize currentPage : Z)
  : PerformanceMetrics :=
  let totalPages := Qceiling (inject_Z totalCount / inject_Z pageSize) in
  let loadedItems := Z.min (currentPage * pageSize) totalCount in
  let loadedPercentage :=
    if 0 <? totalCount
    then ((inject_Z loadedItems / inject_Z totalCount) * inject_Z 100)%Q
    else 0%Q in
  {| pf_totalPages := totalPages;
     pf_loadedItems := loadedItems;
     pf_loadedPercentage :=
       (inject_Z (Math_round (loadedPercentage * inject_Z 100))
        / inject_Z 100)%Q;
     pf_remainingItems := Z.max 0 (totalCount - loadedItems);
     pf_estimatedLoadTime := estimateLoadTime pageSize |}.

(** The numbered entries of a page list, in order. *)
Fixpoint page_numbers (l : list PageItem) : list Z :=
  match l with
  | [] => []
  | PageNum n :: r => n :: page_numbers r
  | Ellipsis :: r => page_numbers r
  end.

(** Whether two ellipsis markers stand next to each other. *)
Fixpoint has_adjacent_ellipses (l : list PageItem) : bool :=
  match l with
  | [] => false
  | x :: r =>
      match x, r with
      | Ellipsis, Ellipsis :: _ => true
      | _, _ => false
      end || has_adjacent_ellipses r
  end.

Record Breadcrumb := {
  bc_page : Z;
  bc_label : string;
  bc_isCurrent : bool
}.

Section Breadcrumbs.
(** [Number.prototype.toString] *)
Variable Number_toString : Z -> string.

(** The [forEach] of [generateBreadcrumbs] (lines 234-242). *)
Fixpoint breadcrumbs_of (currentPage : Z) (l : list PageItem)
  : list Breadcrumb :=
  match l with
  | [] => []
  | PageNum n :: r =>
      {| bc_page := n; bc_label := "Page " ++ Number_toString n;
         bc_isCurrent := n =? currentPage |} :: breadcrumbs_of currentPage r
  | Ellipsis :: r => breadcrumbs_of currentPage r
  end.

(** [generateBreadcrumbs(currentPage, totalPages)] (lines 221-245), with
    the default [maxVisible] of 7. *)
Definition generateBreadcrumbs (currentPage totalPages : Z) : list Breadcrumb :=
  breadcrumbs_of currentPage (generatePageNumbers currentPage totalPages 7).

End Breadcrumbs.

(** [URLSearchParams] as its list of entries. *)
Definition usp_delete (l : list (string * string)) (k : string)
  : list (string * string) :=
  filter (fun kv => negb (String.eqb (fst kv) k)) l.

(** [params.set(k, v)]: the first entry named [k] takes the value [v] and
    the other entries named [k] are removed; with no entry named [k],
    [k=v] is appended. *)
Fixpoint usp_set (l : list (string * string)) (k v : string)
  : list (string * string) :=
  match l with
  | [] => [(k, v)]
  | (k', v') :: r =>
      if String.eqb k' k then (k, v) :: usp_delete r k
      else (k', v') :: usp_set r k v
  end.

Section UrlSearchParams.
(** The [application/x-www-form-urlencoded] serializer of one name or
    value. *)
Variable form_encode : string -> string.

(** [params.toString()] *)
Definition usp_toString (l : list (string * string)) : string :=
  String.concat "&"
    (map (fun kv => form_encode (fst kv) ++ "=" ++ form_encode (snd kv)) l).

Variable Number_toString : Z -> string.

(** The entries of [params] in [generatePageUrl] (lines 158-164). *)
Definition page_params (page : Z) (searchParams : list (string * string))
  : list (string * string) :=
  if 1 <? page then usp_set searchParams "page" (Number_toString page)
  else usp_delete searchParams "page".

(** [generatePageUrl(baseUrl, page, searchParams)] (lines 157-168); an
    absent [searchParams] is the empty list. *)
Definition generatePageUrl (baseUrl : string) (page : Z)
  (searchParams : list (string * string)) : string :=
  let queryString := usp_toString (page_params page searchParams) in
  if truthy queryString then baseUrl ++ "?" ++ queryString else baseUrl.

End UrlSearchParams.

(** ** The rest of the filter service (filterService.ts) *)

(** [filterStateToSearchParams(filters, page, limit)] (lines 96-106) *)
Definition filterStateToSearchParams (filters : FilterState) (page limit : Z)
  : SearchParams :=
  {| sp_q := if truthy (trim (fs_query filters))
             then Some (trim (fs_query filters)) else None;
     sp_category := if truthy (trim (fs_category filters))
                    then Some (trim (fs_category filters)) else None;
     sp_location := if truthy (trim (fs_location filters))
                    then Some (trim (fs_location filters)) else None;
     sp_min := if 0 <? pr_min (fs_priceRange filters)
               then Some (pr_min (fs_priceRange filters)) else None;
     sp_max := if 0 <? pr_max (fs_priceRange filters)
               then Some (pr_max (fs_priceRange filters)) else None;
     sp_page := page;
     sp_limit := Some limit |}.

(** [hasActiveFilters(filters)] (lines 111-119) *)
Definition hasActiveFilters (filters : FilterState) : bool :=
  truthy (trim (fs_query filters)) || truthy (trim (fs_category filters))
  || truthy (trim (fs_location filters))
  || (0 <? pr_min (fs_priceRange filters))
  || (0 <? pr_max (fs_priceRange filters)).

(** [getActiveFilterCount(filters)] (lines 124-133) *)
Definition getActiveFilterCount (filters : FilterState) : nat :=
  let c0 := 0%nat in
  let c1 := if truthy (trim (fs_query filters)) then S c0 else c0 in
  let c2 := if truthy (trim (fs_category filters)) then S c1 else c1 in
  let c3 := if truthy (trim (fs_location filters)) then S c2 else c2 in
  if (0 <? pr_min (fs_priceRange filters))
     || (0 <? pr_max (fs_priceRange filters)) then S c3 else c3.

(** [clearAllFilters()] (lines 138-148) *)
Definition clearAllFilters : FilterState :=
  {| fs_query := ""; fs_category := ""; fs_location := "";
     fs_priceRange := {| pr_min := 0; pr_max := 0 |} |}.

(** [keyof FilterState] *)
Inductive FilterKey :=
| FKquery
| FKcategory
| FKlocation
| FKpriceRange.

(** [removeFilter(filters, filterType)] (lines 153-172) *)
Definition removeFilter (filters : FilterState) (filterType : FilterKey)
  : FilterState :=
  match filterType with
  | FKquery =>
      {| fs_query := ""; fs_category := fs_category filters;
         fs_location := fs_location filters;
         fs_priceRange := fs_priceRange filters |}
  | FKcategory =>
      {| fs_query := fs_query filters; fs_category := "";
         fs_location := fs_location filters;
         fs_priceRange := fs_priceRange filters |}
  | FKlocation =>
      {| fs_query := fs_query filters; fs_category := fs_category filters;
         fs_location := ""; fs_priceRange := fs_priceRange filters |}
  | FKpriceRange =>
      {| fs_query := fs_query filters; fs_category := fs_category filters;
         fs_location := fs_location filters;
         fs_priceRange := {| pr_min := 0; pr_max := 0 |} |}
  end.

(** The [value: any] of [updateFilter]: a string, a number, an object with
    optional [min] and [max] fields, or [undefined]. *)
Inductive anyval :=
| AStr (s : string)
| ANum (n : Z)
| AObj (mn mx : option jsval)
| AUndefined.

Section UpdateFilter.
Variable Number_str : string -> option Z.

(** [updateFilter(filters, filterType, value)] (lines 177-201); [None] is
    a thrown error: [value.trim] on a non-string, or the
    ["Invalid number format"] of [sanitizeNumber]. *)
Definition updateFilter (filters : FilterState) (filterType : FilterKey)
  (value : anyval) : option FilterState :=
  let text (n : nat) :=
    match value with
    | AStr s => Some (sanitizeString s n)
    | _ => None
    end in
  match filterType with
  | FKquery =>
      option_map (fun v =>
        {| fs_query := v; fs_category := fs_category filters;
           fs_location := fs_location filters;
           fs_priceRange := fs_priceRange filters |}) (text 200%nat)
  | FKcategory =>
      option_map (fun v =>
        {| fs_query := fs_query filters; fs_category := v;
           fs_location := fs_location filters;
           fs_priceRange := fs_priceRange filters |}) (text 100%nat)
  | FKlocation =>
      option_map (fun v =>
        {| fs_query := fs_query filters; fs_category := fs_category filters;
           fs_location := v; fs_priceRange := fs_priceRange filters |})
        (text 100%nat)
  | FKpriceRange =>
      match value with
      | AObj mn mx =>
          let bound (o : option jsval) (old : Z) :=
            match o with
            | Some x => sanitizeNumber (coerce_number Number_str x) 0 1000000
            | None => Some old
            end in
          match bound mn (pr_min (fs_priceRange filters)) with
          | None => None
          | Some a =>
              match bound mx (pr_max (fs_priceRange filters)) with
              | None => None
              | Some b =>
                  Some {| fs_query := fs_query filters;
                          fs_category := fs_category filters;
                          fs_location := fs_location filters;
                          fs_priceRange := {| pr_min := a; pr_max := b |} |}
              end
          end
      | _ => Some filters
      end
  end.

End UpdateFilter.

(** [validatePriceRange(min, max)] (lines 206-220): [isValid] and the
    error message. *)
Definition validatePriceRange (mn mx : Z) : bool * option string :=
  if (mn <? 0) || (mx <? 0)
  then (false, Some "Price values must be non-negative")
  else if (mx <? mn) && (0 <? mx)
  then (false, Some "Minimum price must be less than or equal to maximum price")
  else if (1000000 <? mn) || (1000000 <? mx)
  then (false, Some "Price values are too large")
  else (true, None).

(** The double quote character. *)
Definition dq : string := String (ascii_of_nat 34) EmptyString.

Section Format.
(** [formatPrice(price)]: [Intl.NumberFormat] in US dollars. *)
Variable formatPrice : Z -> string.

(** [formatPriceRange(min, max)] (lines 237-246) *)
Definition formatPriceRange (mn mx : Z) : string :=
  if (0 <? mn) && (0 <? mx) then formatPrice mn ++ " - " ++ formatPrice mx
  else if 0 <? mn then formatPrice mn ++ "+"
  else if 0 <? mx then "Up to " ++ formatPrice mx
  else "Any price".

(** [generateFilterDescription(filters)] (lines 251-275) *)
Definition generateFilterDescription (filters : FilterState) : string :=
  let parts :=
    ((if truthy (trim (fs_query filters))
      then [(dq ++ trim (fs_query filters) ++ dq)%string] else [])
     ++ (if truthy (trim (fs_category filters))
         then [("in " ++ fs_category filters)%string] else [])
     ++ (if truthy (trim (fs_location filters))
         then [("near " ++ fs_location filters)%string] else [])
     ++ (if (0 <? pr_min (fs_priceRange filters))
            || (0 <? pr_max (fs_priceRange filters))
         then [("priced " ++ formatPriceRange (pr_min (fs_priceRange filters))
                               (pr_max (fs_priceRange filters)))%string]
         else []))%list in
  match parts with
  | [] => "All products"
  | _ => "Products " ++ String.concat " " parts
  end.

(** [createFilterPills(filters)] (lines 304-348): type, label and value of
    each pill. *)
Definition createFilterPills (filters : FilterState)
  : list (FilterKey * string * string) :=
  ((if truthy (trim (fs_query filters))
    then [(FKquery, "Search", trim (fs_query filters))] else [])
   ++ (if truthy (trim (fs_category filters))
       then [(FKcategory, "Category", trim (fs_category filters))] else [])
   ++ (if truthy (trim (fs_location filters))
       then [(FKlocation, "Location", trim (fs_location filters))] else [])
   ++ (if (0 <? pr_min (fs_priceRange filters))
          || (0 <? pr_max (fs_priceRange filters))
       then [(FKpriceRange, "Price",
              formatPriceRange (pr_min (fs_priceRange filters))
                (pr_max (fs_priceRange filters)))]
       else []))%list.

End Format.

(** [generateCanonicalUrl(baseUrl, filters)] (lines 280-286) *)
Definition generateCanonicalUrl (form_encode : string -> string)
  (Number_toString : Z -> string) (baseUrl : string) (filters : FilterState)
  : string :=
  let queryString :=
    usp_toString form_encode (filterStateToUrlParams Number_toString filters) in
  if truthy queryString then baseUrl ++ "?" ++ queryString else baseUrl.

(** [areFiltersEqual(filters1, filters2)] (lines 291-299) *)
Definition areFiltersEqual (f1 f2 : FilterState) : bool :=
  String.eqb (fs_query f1) (fs_query f2)
  && String.eqb (fs_category f1) (fs_category f2)
  && String.eqb (fs_location f1) (fs_location f2)
  && (pr_min (fs_priceRange f1) =? pr_min (fs_priceRange f2))
  && (pr_max (fs_priceRange f1) =? pr_max (fs_priceRange f2)).

(** [isValidSearchParams(data)] (validations.ts, lines 458-460) *)
Definition isValidSearchParams (Number_str : string -> option Z)
  (o : list (string * jsval)) : bool :=
  is_defined (SearchParamsSchema_safeParse Number_str o).

(** Equality of filter types, as the [===] on [pill.type]. *)
Definition FilterKey_eqb (a b : FilterKey) : bool :=
  match a, b with
  | FKquery, FKquery | FKcategory, FKcategory | FKlocation, FKlocation
  | FKpriceRange, FKpriceRange => true
  | _, _ => false
  end.

(** The bounds a filter state keeps: text within the lengths that
    [sanitizeString] cuts to, prices within [0, 1000000]. *)
Definition filter_state_ok (f : FilterState) : Prop :=
  (String.length (fs_query f) <= 200)%nat
  /\ (String.length (fs_category f) <= 100)%nat
  /\ (String.length (fs_location f) <= 100)%nat
  /\ 0 <= pr_min (fs_priceRange f) <= 1000000
  /\ 0 <= pr_max (fs_priceRange f) <= 1000000.

(** A character list that does not start with JavaScript white space. *)
Definition first_ok (l : list ascii) : Prop :=
  match l with
  | c :: _ => is_js_space c = false
  | [] => True
  end.

(** The occurrences of [v] in [l]. *)
Definition cnt (l : list string) (v : string) : nat :=
  length (filter (fun x => String.eqb x v) l).

(** ** Catalog URLs (validations.ts, lines 279-330) *)

Section CatalogUrl.
(** [encodeURIComponent], [None] where it throws a [URIError]. *)
Variable encodeURIComponent : string -> option string.
(** The serializer of [url.searchParams]. *)
Variable form_encode : string -> string.
Variable Number_toString : Z -> string.
(** [new URL('/catalog', baseUrl).href], [None] where the constructor
    throws; the href so built has no query and no fragment. *)
Variable catalog_href : string -> option string.

(** [safeEncodeURIComponent(str)] (lines 282-289) *)
Definition safeEncodeURIComponent (str : string) : string :=
  match encodeURIComponent str with
  | Some e => e
  | None => str
  end.

(** The value [set] for [q], [category] or [location]: only a defined,
    non-empty string is written, encoded (lines 302-306). *)
Definition text_param (value : option string) : option string :=
  match value with
  | Some s => if String.eqb s "" then None
              else Some (safeEncodeURIComponent s)
  | None => None
  end.

(** The value [set] for [min] or [max]: only a defined, non-zero number is
    written (lines 302-308). *)
Definition num_param (value : option Z) : option string :=
  match value with
  | Some n => if n =? 0 then None else Some (Number_toString n)
  | None => None
  end.

(** The entries of [url.searchParams] after lines 297-314, starting from
    the empty query of [new URL('/catalog', baseUrl)]. *)
Definition catalog_params (searchParams : SearchParams) (includePage : bool)
  : list (string * string) :=
  let orderedParams :=
    [("q", text_param (sp_q searchParams));
     ("category", text_param (sp_category searchParams));
     ("location", text_param (sp_location searchParams));
     ("min", num_param (sp_min searchParams));
     ("max", num_param (sp_max searchParams))] in
  let l := fold_left (fun l kv =>
             match snd kv with
             | Some v => usp_set l (fst kv) v
             | None => l
             end) orderedParams [] in
  if includePage && (1 <? sp_page searchParams)
  then usp_set l "page" (Number_toString (sp_page searchParams))
  else l.

(** [buildCatalogUrl(baseUrl, searchParams, includePage)] (lines 294-323):
    [url.toString()] is the href followed by [?] and the query when the
    query is not empty; a rejected [baseUrl] falls back to
    [baseUrl + '/catalog']. *)
Definition buildCatalogUrl (baseUrl : string) (searchParams : SearchParams)
  (includePage : bool) : string :=
  match catalog_href baseUrl with
  | None => baseUrl ++ "/catalog"
  | Some href =>
      let qs := usp_toString form_encode (catalog_params searchParams includePage) in
      if truthy qs then href ++ "?" ++ qs else href
  end.

(** [buildCanonicalUrl(baseUrl, searchParams)] (lines 328-330) *)
Definition buildCanonicalUrl (baseUrl : string) (searchParams : SearchParams)
  : string :=
  buildCatalogUrl baseUrl searchParams false.

End CatalogUrl.

(** [decodeURIComponent] on text with no percent escapes. *)
Definition decode_identity (s : string) : option string := Some s.

(** ** A sample catalog *)

Definition sample_product (id title category location : string) (price : Z)
  (createdAt : Z) : Product :=
  {| pr_id := id; pr_title := title; pr_description := "A used item";
     pr_price := price; pr_category := category; pr_location := location;
     pr_createdAt := createdAt |}.

Definition sample_catalog : list Product :=
  [sample_product "p1" "Gaming laptop" "Electronics" "Berlin" 1200 5;
   sample_product "p2" "Office laptop" "Electronics" "Paris" 700 4;
   sample_product "p3" "Smartphone" "Electronics" "Berlin" 300 3;
   sample_product "p4" "Oak table" "Furniture" "Paris" 550 2;
   sample_product "p5" "Desk lamp" "electronics" "Berlin" 900 1].

Definition request (q category location : option string) (mn mx : option Z)
  : SearchParams :=
  {| sp_q := q; sp_category := category; sp_min := mn; sp_max := mx;
     sp_location := location; sp_page := 1; sp_limit := Some 20 |}.

(** Scenario B: [{ category: "Electronics", min: 500, max: 1500 }]. *)
Definition scenarioB_params : SearchParams :=
  request None (Some "Electronics") None (Some 500) (Some 1500).

(** * Properties *)

(** ** Pagination *)

Module Pagination.

Lemma ceiling_bounds (tc : Z) (p : positive) :
  let tp := Qceiling (inject_Z tc / inject_Z (Zpos p)) in
  (tp - 1) * Zpos p < tc <= tp * Zpos p.
Proof.
  intros tp.
  pose proof (Qle_ceiling (inject_Z tc / inject_Z (Zpos p))) as Hle.
  pose proof (Qceiling_lt (inject_Z tc / inject_Z (Zpos p))) as Hlt.
  fold tp in Hle, Hlt.
  unfold Qle, Qlt, Qdiv, Qmult, Qinv, inject_Z in Hle, Hlt; simpl in Hle, Hlt.
  split; nia.
Qed.

(** Claim C6. For every [totalCount >= 0] and [pageSize >= 1],
    [calculatePagination] returns as [totalPages] the ceiling of
    [totalCount / pageSize]: the least [n] with [totalCount <= n * pageSize],
    that is [(totalCount + pageSize - 1) / pageSize]; a [totalCount] of 0
    gives 0 pages. *)
Theorem calculatePagination_totalPages_ceiling (totalCount currentPage pageSize : Z)
  (Hcount : 0 <= totalCount) (Hsize : 1 <= pageSize) :
  let tp := pm_totalPages (calculatePagination totalCount currentPage pageSize) in
  (tp - 1) * pageSize < totalCount <= tp * pageSize
  /\ tp = (totalCount + pageSize - 1) / pageSize
  /\ (totalCount = 0 -> tp = 0).
Proof.
  intros tp.
  destruct pageSize as [|p|p]; try lia.
  pose proof (ceiling_bounds totalCount p) as [Hlo Hhi].
  change (Qceiling (inject_Z totalCount / inject_Z (Zpos p))) with tp in Hlo, Hhi.
  assert (Hdiv : tp = (totalCount + Zpos p - 1) / Zpos p).
  { apply (Z.div_unique_pos _ _ _ (totalCount + Zpos p - 1 - tp * Zpos p)); lia. }
  split; [lia | split; [exact Hdiv | intros ->]].
  rewrite Hdiv, Z.add_0_l.
  apply Z.div_small; lia.
Qed.

Lemma calculatePagination_totalPages_ceiling_witness :
  pm_totalPages (calculatePagination 41 1 20) = 3
  /\ pm_totalPages (calculatePagination 0 1 20) = 0
  /\ (let tp := pm_totalPages (calculatePagination 41 1 20) in
      (tp - 1) * 20 < 41 <= tp * 20 /\ tp = (41 + 20 - 1) / 20
      /\ (41 = 0 -> tp = 0)).
Proof.
  split; [reflexivity | split; [reflexivity |]].
  apply (calculatePagination_totalPages_ceiling 41 1 20); lia.
Defined.

(** Claim C5, counterexample: with [totalPages = 0] a page of 5 is returned
    unchanged, not 1. *)
Lemma validatePageNumber_zero_pages_counterexample :
  validatePageNumber 5 0 = 5 /\ validatePageNumber 5 0 <> 1.
Proof. split; [reflexivity | discriminate]. Qed.

(** Claim C5, as the code does it. [validatePageNumber page totalPages]
    returns 1 when [page < 1] and [totalPages] when
    [0 < totalPages < page], and otherwise returns [page] itself (in
    particular any [page] in [[1, totalPages]] is kept); so for
    [totalPages >= 1] the result lies in [[1, totalPages]]. When
    [totalPages] is 0 (the guard [totalPages > 0]) a page [>= 1] is
    returned unchanged: the result is [max 1 page]. *)
Theorem validatePageNumber_clamps (page totalPages : Z) :
  (page < 1 -> validatePageNumber page totalPages = 1)
  /\ (0 < totalPages < page -> validatePageNumber page totalPages = totalPages)
  /\ (1 <= page -> ~ (0 < totalPages < page) ->
      validatePageNumber page totalPages = page)
  /\ (1 <= page <= totalPages -> validatePageNumber page totalPages = page)
  /\ (1 <= totalPages ->
      1 <= validatePageNumber page totalPages <= totalPages)
  /\ (totalPages = 0 -> validatePageNumber page totalPages = Z.max 1 page).
Proof.
  unfold validatePageNumber.
  destruct (Z.ltb_spec page 1), (Z.ltb_spec totalPages page),
           (Z.ltb_spec 0 totalPages); simpl; repeat split; intros; lia.
Qed.

(** Claim C7, failing input: with 8 pages and 7 visible, the ellipsis
    before the last page hides the single page 7. *)
Theorem generatePageNumbers_hides_one_page :
  generatePageNumbers 1 8 7
  = [PageNum 1; PageNum 2; PageNum 3; PageNum 4; PageNum 5; PageNum 6;
     Ellipsis; PageNum 8].
Proof. reflexivity. Qed.

(** Claim C8. When [totalPages <= maxVisible] the list is exactly the pages
    [1, ..., totalPages] with no ellipsis; and
    [generatePageNumbers 1 20 7] is [[1; 2; 3; 4; 5; 6; ellipsis; 20]]. *)
Theorem generatePageNumbers_small_and_scenario_D
  (currentPage totalPages maxVisible : Z) (H : totalPages <= maxVisible) :
  generatePageNumbers currentPage totalPages maxVisible
  = map (fun n => PageNum (Z.of_nat n)) (seq 1 (Z.to_nat totalPages))
  /\ generatePageNumbers 1 20 7
     = [PageNum 1; PageNum 2; PageNum 3; PageNum 4; PageNum 5; PageNum 6;
        Ellipsis; PageNum 20].
Proof.
  split; [| reflexivity].
  unfold generatePageNumbers.
  destruct (Z.leb_spec totalPages maxVisible); [| lia].
  rewrite <- seq_shift, map_map.
  apply map_ext; intros n; f_equal; lia.
Qed.

Lemma generatePageNumbers_small_and_scenario_D_witness :
  3 <= 7 /\
  generatePageNumbers 2 3 7 = [PageNum 1; PageNum 2; PageNum 3].
Proof.
  split; [lia |].
  destruct (generatePageNumbers_small_and_scenario_D 2 3 7 ltac:(lia)) as [H _].
  rewrite H; reflexivity.
Defined.

End Pagination.

(** ** The parameter sanitizer *)

Module Sanitizer.

Lemma obj_get_set_same {V} (o : list (string * V)) k v :
  obj_get (obj_set o k v) k = Some v.
Proof.
  induction o as [|[k' v'] r IH]; simpl.
  - now rewrite String.eqb_refl.
  - destruct (String.eqb k k') eqn:E; simpl.
    + now rewrite String.eqb_refl.
    + now rewrite E.
Qed.

Lemma obj_get_set_other {V} (o : list (string * V)) k k' v :
  k' <> k -> obj_get (obj_set o k v) k' = obj_get o k'.
Proof.
  intros Hne.
  induction o as [|[k0 v0] r IH]; simpl.
  - apply String.eqb_neq in Hne. now rewrite Hne.
  - destruct (String.eqb k k0) eqn:E; simpl.
    + apply String.eqb_eq in E; subst k0.
      apply String.eqb_neq in Hne. now rewrite Hne.
    + destruct (String.eqb k' k0); [reflexivity | exact IH].
Qed.

Lemma as_object_get params k :
  obj_get (as_object params) k = option_map JStr (obj_get params k).
Proof.
  induction params as [|[k' v] r IH]; simpl; [reflexivity |].
  destruct (String.eqb k k'); [reflexivity | exact IH].
Qed.

Section Facts.
Variable Number_str : string -> option Z.
Variable decodeURIComponent : string -> option string.

Lemma znumber_range_bounds lo hi v n :
  znumber_range Number_str lo hi v = Some n -> lo <= n <= hi.
Proof.
  unfold znumber_range.
  destruct (coerce_number Number_str v) as [m|]; [| discriminate].
  destruct ((lo <=? m) && (m <=? hi)) eqn:E; [| discriminate].
  intros [= <-]. apply andb_prop in E as [E1 E2]. lia.
Qed.

(** What a successful parse tells about each numeric field. *)
Lemma safeParse_inv o d :
  SearchParamsSchema_safeParse Number_str o = Some d ->
  zoptional (znumber_range Number_str 0 1000000) (obj_get o "min")
    = Some (sp_min d)
  /\ zoptional (znumber_range Number_str 0 1000000) (obj_get o "max")
    = Some (sp_max d)
  /\ zdefault 1 (znumber_range Number_str 1 1000) (obj_get o "page")
    = Some (sp_page d)
  /\ zoptional (fun x => zdefault 20 (znumber_range Number_str 1 100) (Some x))
       (obj_get o "limit") = Some (sp_limit d)
  /\ min_le_max (sp_min d) (sp_max d) = true.
Proof.
  unfold SearchParamsSchema_safeParse.
  destruct (zstring_trim_max 200 _), (zstring_trim_max 100 (obj_get o "category")),
    (zoptional _ (obj_get o "min")) eqn:Emin,
    (zoptional _ (obj_get o "max")) eqn:Emax,
    (zstring_trim_max 100 (obj_get o "location")),
    (zdefault _ _ (obj_get o "page")) eqn:Epage,
    (zoptional _ (obj_get o "limit")) eqn:Elimit;
    try discriminate.
  destruct (min_le_max _ _) eqn:Eref; [| discriminate].
  intros [= <-]; simpl; auto.
Qed.

(** The invariant of every result: each numeric field within its range. *)
Definition params_in_range (d : SearchParams) : Prop :=
  (forall a, sp_min d = Some a -> 0 <= a <= 1000000)
  /\ (forall b, sp_max d = Some b -> 0 <= b <= 1000000)
  /\ 1 <= sp_page d <= 1000
  /\ (forall l, sp_limit d = Some l -> 1 <= l <= 100).

Lemma zoptional_range_bounds lo hi v a :
  zoptional (znumber_range Number_str lo hi) v = Some (Some a) ->
  lo <= a <= hi.
Proof.
  destruct v as [x|]; simpl; [| discriminate].
  destruct (znumber_range _ _ _ _) eqn:E; simpl; [| discriminate].
  intros [= ->]. eapply znumber_range_bounds; eauto.
Qed.

Lemma safeParse_in_range o d :
  SearchParamsSchema_safeParse Number_str o = Some d -> params_in_range d.
Proof.
  intros H. apply safeParse_inv in H as (Hmin & Hmax & Hpage & Hlimit & _).
  split; [| split; [| split]].
  - intros a Ha. rewrite Ha in Hmin. eapply zoptional_range_bounds; eauto.
  - intros b Hb. rewrite Hb in Hmax. eapply zoptional_range_bounds; eauto.
  - unfold zdefault in Hpage.
    destruct (obj_get o "page"); [| injection Hpage as <-; lia].
    apply znumber_range_bounds in Hpage. exact Hpage.
  - intros l Hl. rewrite Hl in Hlimit.
    destruct (obj_get o "limit"); simpl in Hlimit; [| discriminate].
    destruct (znumber_range _ _ _ _) eqn:E; simpl in Hlimit; [| discriminate].
    injection Hlimit as ->. eapply znumber_range_bounds; eauto.
Qed.

Lemma default_params_in_range : params_in_range default_params.
Proof.
  unfold params_in_range; simpl.
  repeat split; intros; try discriminate; try lia.
  injection H as <-; lia. injection H as <-; lia.
Qed.

Lemma salvage_string_other params k k' acc :
  k' <> k -> obj_get (salvage_string params k acc) k' = obj_get acc k'.
Proof.
  intros Hne. unfold salvage_string.
  destruct (obj_get params k) as [v|]; [| reflexivity].
  destruct (truthy v); [| reflexivity].
  now apply obj_get_set_other.
Qed.

Lemma salvage_number_other params k lo hi acc k' :
  k' <> k ->
  obj_get (salvage_number Number_str params k lo hi acc) k' = obj_get acc k'.
Proof.
  intros Hne. unfold salvage_number.
  destruct (obj_get params k) as [v|]; [| reflexivity].
  destruct (truthy v); [| reflexivity].
  destruct (Number_str v) as [n|]; [| reflexivity].
  destruct ((lo <=? n) && (n <=? hi)); [| reflexivity].
  now apply obj_get_set_other.
Qed.

Lemma salvage_number_in params k lo hi acc v n :
  obj_get params k = Some v -> truthy v = true -> Number_str v = Some n ->
  lo <= n <= hi ->
  obj_get (salvage_number Number_str params k lo hi acc) k = Some (JNum n).
Proof.
  intros Hk Ht Hn Hr. unfold salvage_number.
  rewrite Hk, Ht, Hn.
  replace ((lo <=? n) && (n <=? hi)) with true by (symmetry; apply andb_true_intro; split; apply Z.leb_le; lia).
  apply obj_get_set_same.
Qed.

Lemma salvage_number_out params k lo hi acc v n :
  obj_get params k = Some v -> Number_str v = Some n -> ~ (lo <= n <= hi) ->
  obj_get (salvage_number Number_str params k lo hi acc) k = obj_get acc k.
Proof.
  intros Hk Hn Hr. unfold salvage_number.
  rewrite Hk. destruct (truthy v); [| reflexivity].
  rewrite Hn.
  destruct ((lo <=? n) && (n <=? hi)) eqn:E; [| reflexivity].
  apply andb_prop in E as [E1 E2]. apply Z.leb_le in E1, E2. lia.
Qed.

Ltac key_neq := let H := fresh in intro H; discriminate H.

Lemma salvage_number_acc params k lo hi acc acc' :
  obj_get acc k = obj_get acc' k ->
  obj_get (salvage_number Number_str params k lo hi acc) k
  = obj_get (salvage_number Number_str params k lo hi acc') k.
Proof.
  intros Hacc. unfold salvage_number.
  destruct (obj_get params k) as [v|]; [| exact Hacc].
  destruct (truthy v); [| exact Hacc].
  destruct (Number_str v) as [n|]; [| exact Hacc].
  destruct ((lo <=? n) && (n <=? hi)); [| exact Hacc].
  now rewrite !obj_get_set_same.
Qed.

(** The salvaged object has no key but those it salvages, each set only
    by its own step. *)
Lemma salvage_min params :
  obj_get (salvage Number_str params) "min"
  = obj_get (salvage_number Number_str params "min" 0 1000000 []) "min".
Proof.
  unfold salvage.
  rewrite !salvage_number_other by key_neq.
  apply salvage_number_acc.
  rewrite !salvage_string_other by key_neq; reflexivity.
Qed.

Lemma salvage_max params :
  obj_get (salvage Number_str params) "max"
  = obj_get (salvage_number Number_str params "max" 0 1000000 []) "max".
Proof.
  unfold salvage.
  rewrite salvage_number_other by key_neq.
  apply salvage_number_acc.
  rewrite salvage_number_other, !salvage_string_other by key_neq; reflexivity.
Qed.

Lemma salvage_page params :
  obj_get (salvage Number_str params) "page"
  = obj_get (salvage_number Number_str params "page" 1 1000 []) "page".
Proof.
  unfold salvage.
  apply salvage_number_acc.
  rewrite !salvage_number_other, !salvage_string_other by key_neq; reflexivity.
Qed.

Lemma salvage_limit params :
  obj_get (salvage Number_str params) "limit" = None.
Proof.
  unfold salvage.
  rewrite !salvage_number_other, !salvage_string_other by key_neq.
  reflexivity.
Qed.

(** A parse in which [min] reads [a] and [max] reads [b] has [a <= b]. *)
Lemma safeParse_min_le_max o d v1 v2 a b :
  SearchParamsSchema_safeParse Number_str o = Some d ->
  obj_get o "min" = Some v1 -> coerce_number Number_str v1 = Some a ->
  0 <= a <= 1000000 ->
  obj_get o "max" = Some v2 -> coerce_number Number_str v2 = Some b ->
  0 <= b <= 1000000 ->
  a <= b.
Proof.
  intros H Hv1 Ha Hra Hv2 Hb Hrb.
  apply safeParse_inv in H as (Hmin & Hmax & _ & _ & Href).
  rewrite Hv1 in Hmin. rewrite Hv2 in Hmax.
  unfold zoptional, znumber_range in Hmin, Hmax.
  rewrite Ha in Hmin. rewrite Hb in Hmax.
  replace ((0 <=? a) && (a <=? 1000000)) with true in Hmin
    by (symmetry; apply andb_true_intro; split; apply Z.leb_le; lia).
  replace ((0 <=? b) && (b <=? 1000000)) with true in Hmax
    by (symmetry; apply andb_true_intro; split; apply Z.leb_le; lia).
  simpl in Hmin, Hmax.
  injection Hmin as Hm. injection Hmax as HM.
  rewrite <- Hm, <- HM in Href. simpl in Href. now apply Z.leb_le.
Qed.

(** Claim C3, as the code does it. When the sanitized [min] and [max]
    values are non-empty strings that [Number()] reads as numbers of
    [[0, 1000000]] with [min > max], [processSearchParams] returns the hard
    default [{ page: 1, limit: 20 }] with no filter; the function is total,
    so it never throws. *)
Theorem processSearchParams_min_gt_max_defaults (raw : raw_input)
  (smin smax : string) (a b : Z)
  (Hmin : obj_get (collect_params decodeURIComponent raw) "min" = Some smin)
  (Hmin_nonblank : smin <> "")
  (Ha : Number_str smin = Some a) (Ha_range : 0 <= a <= 1000000)
  (Hmax : obj_get (collect_params decodeURIComponent raw) "max" = Some smax)
  (Hmax_nonblank : smax <> "")
  (Hb : Number_str smax = Some b) (Hb_range : 0 <= b <= 1000000)
  (Hgt : b < a) :
  processSearchParams Number_str decodeURIComponent raw = default_params.
Proof.
  unfold processSearchParams.
  set (params := collect_params decodeURIComponent raw) in *.
  destruct (SearchParamsSchema_safeParse Number_str (as_object params)) as [d|] eqn:E1.
  { exfalso.
    assert (a <= b); [| lia].
    eapply (safeParse_min_le_max _ _ (JStr smin) (JStr smax)); eauto;
      rewrite as_object_get; [rewrite Hmin | rewrite Hmax]; reflexivity. }
  destruct (SearchParamsSchema_safeParse Number_str (salvage Number_str params)) as [d|] eqn:E2;
    [| reflexivity].
  exfalso.
  assert (Ht1 : truthy smin = true)
    by (unfold truthy; apply negb_true_iff, String.eqb_neq; exact Hmin_nonblank).
  assert (Ht2 : truthy smax = true)
    by (unfold truthy; apply negb_true_iff, String.eqb_neq; exact Hmax_nonblank).
  assert (a <= b); [| lia].
  eapply (safeParse_min_le_max _ _ (JNum a) (JNum b)); eauto.
  - rewrite salvage_min. eapply salvage_number_in; eauto.
  - rewrite salvage_max. eapply salvage_number_in; eauto.
Qed.

Lemma zoptional_range_out v s a lo hi :
  v = Some (JStr s) -> Number_str s = Some a -> ~ (lo <= a <= hi) ->
  zoptional (znumber_range Number_str lo hi) v = None.
Proof.
  intros -> Ha Hr. simpl. unfold znumber_range, coerce_number.
  rewrite Ha.
  destruct ((lo <=? a) && (a <=? hi)) eqn:E; [| reflexivity].
  apply andb_prop in E as [E1 E2]. apply Z.leb_le in E1, E2. lia.
Qed.

(** Claim C4, as the code does it. The sanitizer validates and never
    clamps. Its result always has [min] and [max] (when present) in
    [[0, 1000000]], [page] in [[1, 1000]] and [limit] (when present) in
    [[1, 100]]; a numeric input outside its range is dropped: such a [min]
    or [max] is absent from the result, such a [page] gives [page = 1] and
    such a [limit] gives no limit (or the hard default 20). *)
Theorem processSearchParams_validates_without_clamping (raw : raw_input) :
  let r := processSearchParams Number_str decodeURIComponent raw in
  let params := collect_params decodeURIComponent raw in
  params_in_range r
  /\ (forall s a, obj_get params "min" = Some s -> Number_str s = Some a ->
        ~ (0 <= a <= 1000000) -> sp_min r = None)
  /\ (forall s b, obj_get params "max" = Some s -> Number_str s = Some b ->
        ~ (0 <= b <= 1000000) -> sp_max r = None)
  /\ (forall s n, obj_get params "page" = Some s -> Number_str s = Some n ->
        ~ (1 <= n <= 1000) -> sp_page r = 1)
  /\ (forall s l, obj_get params "limit" = Some s -> Number_str s = Some l ->
        ~ (1 <= l <= 100) -> sp_limit r = None \/ sp_limit r = Some 20).
Proof.
  intros r params.
  unfold r, processSearchParams; fold params.
  destruct (SearchParamsSchema_safeParse Number_str (as_object params)) as [d|] eqn:E1.
  { (* the strict parse succeeded: every field was in range *)
    pose proof (safeParse_inv _ _ E1) as (Hmin & Hmax & Hpage & Hlimit & _).
    rewrite !as_object_get in Hmin, Hmax, Hpage, Hlimit.
    split; [eapply safeParse_in_range; eauto |].
    split; [| split; [| split]]; intros s x Hs Hx Hr.
    - rewrite (zoptional_range_out _ s x 0 1000000) in Hmin;
        [discriminate | now rewrite Hs | exact Hx | exact Hr].
    - rewrite (zoptional_range_out _ s x 0 1000000) in Hmax;
        [discriminate | now rewrite Hs | exact Hx | exact Hr].
    - rewrite Hs in Hpage. simpl in Hpage.
      unfold znumber_range, coerce_number in Hpage. rewrite Hx in Hpage.
      destruct ((1 <=? x) && (x <=? 1000)) eqn:E; [| discriminate].
      apply andb_prop in E as [E1' E2']. apply Z.leb_le in E1', E2'. lia.
    - rewrite Hs in Hlimit. simpl in Hlimit.
      unfold znumber_range, coerce_number in Hlimit. rewrite Hx in Hlimit.
      destruct ((1 <=? x) && (x <=? 100)) eqn:E; [| discriminate].
      apply andb_prop in E as [E1' E2']. apply Z.leb_le in E1', E2'. lia. }
  destruct (SearchParamsSchema_safeParse Number_str (salvage Number_str params)) as [d|] eqn:E2.
  { (* the salvaged parse: out-of-range numbers were not salvaged *)
    pose proof (safeParse_inv _ _ E2) as (Hmin & Hmax & Hpage & Hlimit & _).
    split; [eapply safeParse_in_range; eauto |].
    split; [| split; [| split]]; intros s x Hs Hx Hr.
    - rewrite salvage_min in Hmin.
      rewrite (salvage_number_out _ _ _ _ _ s x) in Hmin; auto.
      simpl in Hmin. now injection Hmin.
    - rewrite salvage_max in Hmax.
      rewrite (salvage_number_out _ _ _ _ _ s x) in Hmax; auto.
      simpl in Hmax. now injection Hmax.
    - rewrite salvage_page in Hpage.
      rewrite (salvage_number_out _ _ _ _ _ s x) in Hpage; auto.
      simpl in Hpage. now injection Hpage.
    - left. rewrite salvage_limit in Hlimit. simpl in Hlimit.
      now injection Hlimit. }
  (* the hard default *)
  split; [apply default_params_in_range |].
  repeat split; intros; simpl; auto.
Qed.

End Facts.

Lemma processSearchParams_min_gt_max_defaults_witness :
  processSearchParams js_Number decode_identity
    (FromRecord [("min", RStr "900"); ("max", RStr "100"); ("q", RStr "lamp")])
  = default_params.
Proof.
  apply (processSearchParams_min_gt_max_defaults js_Number decode_identity
           _ "900" "100" 900 100); try reflexivity; try discriminate; lia.
Defined.

(** Claim C3, counterexample: [?min=5&max=%20] reaches the sanitizer as
    [{ min: "5", max: " " }]. The blank [max] is read by [Number("")] as 0,
    a number in range below [min], so the strict parse fails; the salvage
    path drops the blank (falsy) [max] and keeps [min], so the result is
    [{ min: 5, page: 1 }], not the hard default. *)
Lemma processSearchParams_blank_max_counterexample :
  let raw := FromRecord [("min", RStr "5"); ("max", RStr " ")] in
  obj_get (collect_params decode_identity raw) "min" = Some "5"
  /\ js_Number "5" = Some 5
  /\ obj_get (collect_params decode_identity raw) "max" = Some ""
  /\ js_Number "" = Some 0
  /\ processSearchParams js_Number decode_identity raw
     = {| sp_q := None; sp_category := None; sp_min := Some 5;
          sp_max := None; sp_location := None; sp_page := 1;
          sp_limit := None |}
  /\ processSearchParams js_Number decode_identity raw <> default_params.
Proof.
  repeat split; try reflexivity.
  vm_compute. discriminate.
Qed.

(** Claim C4, counterexample: out-of-range values are dropped, not
    clamped: [page=2000] gives page 1 (not 1000), [limit=500] gives no
    limit (not 100), [min=2000000] gives no min (not 1000000). *)
Lemma processSearchParams_no_clamp_counterexample :
  sp_page (processSearchParams js_Number decode_identity
             (FromRecord [("page", RStr "2000")])) = 1
  /\ sp_limit (processSearchParams js_Number decode_identity
                 (FromRecord [("limit", RStr "500")])) = None
  /\ sp_min (processSearchParams js_Number decode_identity
               (FromRecord [("min", RStr "2000000")])) = None
  /\ sp_page (processSearchParams js_Number decode_identity
                (FromRecord [("page", RStr "2000")])) <> 1000.
Proof.
  repeat split; try reflexivity.
  vm_compute. discriminate.
Qed.

End Sanitizer.

(** ** Search and facets *)

Module Search.

Lemma In_insert_by {A} (before : A -> A -> bool) x y l :
  In y (insert_by before x l) <-> y = x \/ In y l.
Proof.
  induction l as [|z r IH]; simpl; [intuition congruence |].
  destruct (before z x); simpl; rewrite ?IH; intuition congruence.
Qed.

Lemma In_sort_by {A} (before : A -> A -> bool) y l :
  In y (sort_by before l) <-> In y l.
Proof.
  induction l as [|x r IH]; simpl; [tauto |].
  rewrite In_insert_by, IH. intuition congruence.
Qed.

Lemma In_firstn_l {A} n (l : list A) x : In x (firstn n l) -> In x l.
Proof.
  intros H. rewrite <- (firstn_skipn n l). apply in_or_app. now left.
Qed.

Lemma In_skipn_l {A} n (l : list A) x : In x (skipn n l) -> In x l.
Proof.
  intros H. rewrite <- (firstn_skipn n l). apply in_or_app. now right.
Qed.

Lemma executeProductSearch_sound catalog w skip limit p :
  In p (executeProductSearch catalog w skip limit) ->
  In p catalog /\ where_matches w p = true.
Proof.
  unfold executeProductSearch. intros H.
  apply In_firstn_l, In_skipn_l in H.
  apply In_sort_by, filter_In in H. exact H.
Qed.

Lemma group_count_sound key ps v n :
  In (v, n) (group_count key ps) -> n = count_value key ps v.
Proof.
  unfold group_count. intros H.
  apply In_sort_by, in_map_iff in H as (v' & Heq & _).
  now injection Heq as <- <-.
Qed.

Lemma contains_empty s : contains "" s = true.
Proof. destruct s; reflexivity. Qed.

Lemma lower_eq_refl a : equals_insensitive a a = true.
Proof. apply String.eqb_refl. Qed.

Lemma filter_filter {A} (f g : A -> bool) l :
  filter f (filter g l) = filter (fun x => g x && f x) l.
Proof.
  induction l as [|x r IH]; simpl; [reflexivity |].
  destruct (g x); simpl; [destruct (f x); simpl |]; now rewrite IH.
Qed.

Lemma params_object_get p :
  obj_get (params_object p) "q" = option_map JStr (sp_q p)
  /\ obj_get (params_object p) "category" = option_map JStr (sp_category p)
  /\ obj_get (params_object p) "min" = option_map JNum (sp_min p)
  /\ obj_get (params_object p) "max" = option_map JNum (sp_max p)
  /\ obj_get (params_object p) "location" = option_map JStr (sp_location p)
  /\ obj_get (params_object p) "page" = Some (JNum (sp_page p))
  /\ obj_get (params_object p) "limit" = option_map JNum (sp_limit p).
Proof.
  destruct p as [q c mn mx l pg lim]; unfold params_object; simpl.
  destruct q, c, mn, mx, l, lim; repeat split.
Qed.

Section Facts.
Variable Number_str : string -> option Z.

(** A request the schema accepts keeps being accepted, with the same
    result, when a trimmed category of at most 100 characters is put in. *)
Lemma validate_with_category params vp X :
  validateSearchParams Number_str params = Some vp ->
  trim X = X -> (String.length X <= 100)%nat ->
  validateSearchParams Number_str (with_category params X)
  = Some (with_category vp X).
Proof.
  intros H HX Hlen.
  unfold validateSearchParams, SearchParamsSchema_safeParse in *.
  destruct (params_object_get params) as (Gq & Gc & Gmin & Gmax & Gl & Gp & Glim).
  destruct (params_object_get (with_category params X))
    as (Gq' & Gc' & Gmin' & Gmax' & Gl' & Gp' & Glim').
  rewrite Gq, Gc, Gmin, Gmax, Gl, Gp, Glim in H.
  rewrite Gq', Gc', Gmin', Gmax', Gl', Gp', Glim'.
  unfold with_category at 1 2 3 4 5 6 7.
  cbn [sp_q sp_category sp_min sp_max sp_location sp_page sp_limit].
  replace (zstring_trim_max 100 (option_map JStr (Some X))) with (Some (Some X))
    by (cbn; rewrite HX; replace ((String.length X <=? 100)%nat) with true
          by (symmetry; apply Nat.leb_le; exact Hlen); reflexivity).
  repeat match type of H with
  | context [match ?x with _ => _ end] => destruct x
  end; try discriminate.
  injection H as <-. reflexivity.
Qed.

Lemma truthy_true s : s <> "" -> truthy s = true.
Proof. intros H. unfold truthy. apply negb_true_iff, String.eqb_neq, H. Qed.

Lemma truthy_false s : truthy s = false -> s = "".
Proof. unfold truthy. intros H. apply negb_false_iff, String.eqb_eq in H. exact H. Qed.

Lemma search_ok catalog params vp :
  validateSearchParams Number_str params = Some vp ->
  exists res, search Number_str catalog params = Some res
  /\ facets res = generateFacets catalog vp (sanitized_query vp)
  /\ totalCount res
     = getProductCount catalog (buildWhereClause vp (sanitized_query vp))
  /\ forall p, In p (products res) ->
       where_matches (buildWhereClause vp (sanitized_query vp)) p = true.
Proof.
  intros Hv. unfold search. rewrite Hv.
  eexists; split; [reflexivity |]. simpl.
  split; [reflexivity | split; [reflexivity |]].
  intros p Hp. now apply executeProductSearch_sound in Hp.
Qed.

(** Claim C2, as the code does it. For any request and the parameters
    [vp] its validation yields, every product [search] returns satisfies
    every filter dimension supplied in [vp]:
    the sanitized query is a case-insensitive substring of the
    title or the description, the category and the location equal the
    requested ones up to letter case, and the price lies within the given
    bounds; a category or location given as the empty string imposes no
    constraint. With no dimension supplied, the filter matches every
    product. *)
Theorem search_results_satisfy_filters catalog params vp res p
  (Hvalid : validateSearchParams Number_str params = Some vp)
  (Hsearch : search Number_str catalog params = Some res)
  (Hin : In p (products res)) :
  satisfies_filters vp p
  /\ (no_filter_supplied vp -> forall p',
        where_matches (buildWhereClause vp (sanitized_query vp)) p'
        = true).
Proof.
  destruct (search_ok catalog _ _ Hvalid) as (res' & Hs & _ & _ & Hall).
  rewrite Hsearch in Hs. injection Hs as <-.
  specialize (Hall p Hin).
  split.
  - unfold where_matches, buildWhereClause in Hall; simpl in Hall.
    apply andb_prop in Hall as [Hall Hprice].
    apply andb_prop in Hall as [Hall Hloc].
    apply andb_prop in Hall as [Hkw Hcat].
    split; [| split; [| split; [| split]]].
    + intros q Hq Hne. unfold sanitized_query in Hkw.
      rewrite Hq, (truthy_true q Hne) in Hkw.
      unfold keyword_clause in Hkw.
      destruct (truthy (sanitizeSearchQuery q)) eqn:Et.
      * now apply orb_prop in Hkw.
      * left. apply truthy_false in Et. rewrite Et. apply contains_empty.
    + intros c Hc Hne. rewrite Hc in Hcat. unfold opt_truthy in Hcat.
      now rewrite (truthy_true c Hne) in Hcat.
    + intros l Hl Hne. rewrite Hl in Hloc. unfold opt_truthy in Hloc.
      now rewrite (truthy_true l Hne) in Hloc.
    + intros a Ha. rewrite Ha in Hprice. simpl in Hprice.
      apply andb_prop in Hprice as [H1 _]. now apply Z.leb_le.
    + intros b Hb. rewrite Hb in Hprice. simpl in Hprice.
      destruct (sp_min vp); simpl in Hprice;
        [apply andb_prop in Hprice as [_ Hprice] |]; now apply Z.leb_le.
  - intros (Hq & Hc & Hl & Hmn & Hmx) p'.
    unfold where_matches, buildWhereClause; simpl.
    rewrite Hc, Hl, Hmn, Hmx.
    unfold sanitized_query. unfold opt_truthy in Hq.
    destruct (sp_q vp) as [q|]; [| reflexivity].
    destruct (truthy q) eqn:Et; [discriminate | reflexivity].
Qed.

Lemma aggregate_min_none ps : aggregate_min ps = None -> ps = [].
Proof.
  destruct ps as [|p r]; simpl; [reflexivity |].
  destruct (aggregate_min r); discriminate.
Qed.

Lemma aggregate_max_none ps : aggregate_max ps = None -> ps = [].
Proof.
  destruct ps as [|p r]; simpl; [reflexivity |].
  destruct (aggregate_max r); discriminate.
Qed.

Lemma aggregate_min_sound ps m :
  aggregate_min ps = Some m ->
  In m (map pr_price ps) /\ forall p, In p ps -> m <= pr_price p.
Proof.
  revert m. induction ps as [|p0 r IH]; simpl; [discriminate |].
  intros m Hm.
  destruct (aggregate_min r) as [m'|] eqn:Er.
  - injection Hm as <-. destruct (IH m' eq_refl) as [Hin Hle].
    split.
    + destruct (Z.min_spec (pr_price p0) m') as [[_ ->]|[_ ->]]; auto.
    + intros p [<-|Hp]; [lia |]. specialize (Hle p Hp). lia.
  - injection Hm as <-. apply aggregate_min_none in Er. subst r.
    split; [now left | intros p [<-|[]]; lia].
Qed.

Lemma aggregate_max_sound ps m :
  aggregate_max ps = Some m ->
  In m (map pr_price ps) /\ forall p, In p ps -> pr_price p <= m.
Proof.
  revert m. induction ps as [|p0 r IH]; simpl; [discriminate |].
  intros m Hm.
  destruct (aggregate_max r) as [m'|] eqn:Er.
  - injection Hm as <-. destruct (IH m' eq_refl) as [Hin Hle].
    split.
    + destruct (Z.max_spec (pr_price p0) m') as [[_ ->]|[_ ->]]; auto.
    + intros p [<-|Hp]; [lia |]. specialize (Hle p Hp). lia.
  - injection Hm as <-. apply aggregate_max_none in Er. subst r.
    split; [now left | intros p [<-|[]]; lia].
Qed.

Lemma or_zero_some m : or_zero (Some m) = m.
Proof. simpl. destruct (Z.eqb_spec m 0); congruence. Qed.

Lemma priceRangeWhere_matches params sq p :
  where_matches (priceRangeWhere params sq) p
  = matches_keyword_category_location params sq p.
Proof.
  unfold where_matches, priceRangeWhere, matches_keyword_category_location,
    keyword_clause, opt_truthy, truthy; simpl.
  destruct (String.eqb sq ""); simpl;
  destruct (sp_category params) as [c|]; try destruct (String.eqb c "");
  destruct (sp_location params) as [l|]; try destruct (String.eqb l "");
  simpl; btauto.
Qed.

(** Claim C9. For any request and the parameters [vp] its validation
    yields, the price-range facet is the least and the greatest price over the products that
    match the keyword, category and location filters (the price bounds are
    not applied); when no product matches, both are 0. *)
Theorem search_priceRange_facet catalog params vp res
  (Hvalid : validateSearchParams Number_str params = Some vp)
  (Hsearch : search Number_str catalog params = Some res) :
  let L := filter (matches_keyword_category_location vp
                     (sanitized_query vp)) catalog in
  let pr := f_priceRange (facets res) in
  (L = [] -> pr = (0, 0))
  /\ (L <> [] ->
      In (fst pr) (map pr_price L) /\ (forall p, In p L -> fst pr <= pr_price p)
      /\ In (snd pr) (map pr_price L)
      /\ (forall p, In p L -> pr_price p <= snd pr)).
Proof.
  intros L pr.
  destruct (search_ok catalog _ _ Hvalid) as (res' & Hs & Hf & _).
  rewrite Hsearch in Hs. injection Hs as <-.
  unfold pr. rewrite Hf. simpl. unfold getPriceRange.
  replace (filter (where_matches (priceRangeWhere vp (sanitized_query vp))) catalog)
    with L by (apply filter_ext; intros p; symmetry; apply priceRangeWhere_matches).
  split.
  - intros ->. reflexivity.
  - intros Hne. simpl.
    destruct (aggregate_min L) as [m|] eqn:Emin;
      [| now apply aggregate_min_none in Emin].
    destruct (aggregate_max L) as [M|] eqn:EMax;
      [| now apply aggregate_max_none in EMax].
    rewrite !or_zero_some.
    destruct (aggregate_min_sound _ _ Emin), (aggregate_max_sound _ _ EMax).
    auto.
Qed.

(** Claim C1, as the code does it. Take any request [search] accepts and a
    category [X] the category facet reports with count [n]. If [X] is
    trimmed, non-empty and at most 100 characters long, and no product's
    category differs from [X] only in letter case, then the same request
    with category [X] has [totalCount = n]. The facet ignores any active
    category filter; it groups by the exact category value, while the
    category filter compares case-insensitively. *)
Theorem category_facet_count_eq_search_totalCount catalog params res X n
  (Hsearch : search Number_str catalog params = Some res)
  (Hfacet : In (X, n) (f_categories (facets res)))
  (HX_trim : trim X = X) (HX_nonempty : X <> "")
  (HX_len : (String.length X <= 100)%nat)
  (Hcase : forall p, In p catalog ->
             equals_insensitive X (pr_category p) = true -> pr_category p = X) :
  exists res', search Number_str catalog (with_category params X) = Some res'
               /\ totalCount res' = n.
Proof.
  destruct (validateSearchParams Number_str params) as [vp|] eqn:Hv;
    [| unfold search in Hsearch; rewrite Hv in Hsearch; discriminate].
  destruct (search_ok catalog _ _ Hv) as (res0 & Hs & Hf & _).
  rewrite Hsearch in Hs. injection Hs as <-.
  rewrite Hf in Hfacet. simpl in Hfacet.
  apply group_count_sound in Hfacet. subst n.
  pose proof (validate_with_category _ _ X Hv HX_trim HX_len) as Hv'.
  destruct (search_ok catalog _ _ Hv') as (res' & Hs' & _ & Htc & _).
  exists res'. split; [exact Hs' |]. rewrite Htc.
  unfold getProductCount, count_value. rewrite filter_filter.
  f_equal. apply filter_ext_in. intros p Hp.
  assert (E : equals_insensitive X (pr_category p) = String.eqb (pr_category p) X).
  { destruct (String.eqb_spec (pr_category p) X) as [->|Hne].
    - apply lower_eq_refl.
    - destruct (equals_insensitive X (pr_category p)) eqn:E; [| reflexivity].
      exfalso. exact (Hne (Hcase p Hp E)). }
  unfold where_matches, categoryFacetWhere, buildWhereClause, with_category,
    sanitized_query; simpl.
  rewrite (truthy_true X HX_nonempty), E.
  destruct (sp_min vp), (sp_max vp); simpl; btauto.
Qed.

End Facts.

Lemma search_results_satisfy_filters_witness :
  exists res, search js_Number sample_catalog scenarioB_params = Some res
    /\ products res <> []
    /\ forall p, In p (products res) -> satisfies_filters scenarioB_params p.
Proof.
  eexists; split; [reflexivity |].
  split; [vm_compute; discriminate |].
  intros p Hp.
  exact (proj1 (search_results_satisfy_filters js_Number sample_catalog
                  scenarioB_params scenarioB_params _ p eq_refl eq_refl Hp)).
Defined.

(** Claim C2, counterexample: a category given as the empty string (what
    the sanitizer makes of a blank category value) is accepted by the schema but
    imposes nothing, so a product of category [Furniture] is returned
    although its category is not the requested one. *)
Lemma search_empty_category_counterexample :
  let params := request None (Some "") None None None in
  validateSearchParams js_Number params = Some params
  /\ exists res, search js_Number sample_catalog params = Some res
     /\ In (sample_product "p4" "Oak table" "Furniture" "Paris" 550 2)
           (products res)
     /\ equals_insensitive "" "Furniture" = false.
Proof.
  split; [reflexivity |].
  eexists; split; [reflexivity |].
  split; [vm_compute; tauto | reflexivity].
Qed.

Lemma search_priceRange_facet_witness :
  let params := request (Some "laptop") None None (Some 800) None in
  validateSearchParams js_Number params = Some params
  /\ exists res, search js_Number sample_catalog params = Some res
     /\ f_priceRange (facets res) = (700, 1200)
     /\ In 700 (map pr_price (filter (matches_keyword_category_location params
                   (sanitized_query params)) sample_catalog)).
Proof.
  split; [reflexivity |].
  eexists; split; [reflexivity |]. split; [reflexivity |].
  destruct (search_priceRange_facet js_Number sample_catalog
              (request (Some "laptop") None None (Some 800) None)
              (request (Some "laptop") None None (Some 800) None) _
              eq_refl eq_refl) as [_ H].
  destruct H as [H _]; [discriminate |].
  exact H.
Defined.

Lemma category_facet_count_eq_search_totalCount_witness :
  exists res', search js_Number sample_catalog
                 (with_category (request None None (Some "Paris") None None)
                    "Furniture") = Some res'
               /\ totalCount res' = 1%nat.
Proof.
  apply (category_facet_count_eq_search_totalCount js_Number sample_catalog
           (request None None (Some "Paris") None None)
           (proj1_sig (exist (fun r => search js_Number sample_catalog
              (request None None (Some "Paris") None None) = Some r) _ eq_refl))).
  - reflexivity.
  - vm_compute. tauto.
  - reflexivity.
  - discriminate.
  - vm_compute. lia.
  - intros p Hp. vm_compute in Hp.
    repeat (destruct Hp as [<-|Hp]; [vm_compute; first [reflexivity | discriminate] |]).
    destruct Hp.
Defined.

(** Claim C1, counterexample: with products of category [Electronics] and
    [electronics], the facet reports [Electronics] with count 3 while
    [search({ category: "Electronics" })] counts the 4 products matching
    the category case-insensitively. *)
Lemma category_facet_case_counterexample :
  exists res res',
    search js_Number sample_catalog default_params = Some res
    /\ In ("Electronics", 3%nat) (f_categories (facets res))
    /\ search js_Number sample_catalog
         (with_category default_params "Electronics") = Some res'
    /\ totalCount res' = 4%nat.
Proof.
  do 2 eexists. split; [reflexivity |].
  split; [vm_compute; tauto |].
  split; reflexivity.
Qed.

End Search.

Module Filters.

Lemma substring_full s n :
  (String.length s <= n)%nat -> substring 0 n s = s.
Proof.
  revert n. induction s as [|a s IH]; intros [|n] H; simpl in *;
    try reflexivity; try lia.
  f_equal. apply IH. lia.
Qed.

Lemma sanitizeString_id s n :
  trim s = s -> (String.length s <= n)%nat -> sanitizeString s n = s.
Proof.
  intros Ht Hl. unfold sanitizeString, slice0. rewrite Ht.
  now apply substring_full.
Qed.

Lemma sanitize_field s n :
  trim s = s -> (String.length s <= n)%nat ->
  sanitizeString (if truthy (trim s) then trim s else "") n = s.
Proof.
  intros Ht Hl. rewrite Ht.
  destruct (truthy s) eqn:E.
  - now apply sanitizeString_id.
  - apply Search.truthy_false in E. subst s. now destruct n.
Qed.

Lemma obj_get_record_of_strings l k :
  obj_get (record_of_strings l) k = option_map RStr (obj_get l k).
Proof.
  induction l as [|[k' v] r IH]; simpl; [reflexivity |].
  destruct (String.eqb k k'); auto.
Qed.

Lemma getFirstValue_record l k :
  getFirstValue (obj_get (record_of_strings l) k)
  = match obj_get l k with Some v => v | None => "" end.
Proof. rewrite obj_get_record_of_strings. now destruct (obj_get l k). Qed.

Ltac key_neq := let H := fresh in intro H; discriminate H.

Ltac obj_get_set :=
  repeat match goal with
  | |- context [if ?b then obj_set _ _ _ else _] => destruct b
  end;
  repeat first [rewrite Sanitizer.obj_get_set_same
               | rewrite Sanitizer.obj_get_set_other by key_neq];
  reflexivity.

Section Roundtrip.
Variable Number_toString : Z -> string.
Variable parseFloat : string -> option Z.

Lemma filterStateToUrlParams_get f :
  let o := filterStateToUrlParams Number_toString f in
  let str k := match obj_get o k with Some v => v | None => "" end in
  str "q" = (if truthy (trim (fs_query f)) then trim (fs_query f) else "")
  /\ str "category"
     = (if truthy (trim (fs_category f)) then trim (fs_category f) else "")
  /\ str "location"
     = (if truthy (trim (fs_location f)) then trim (fs_location f) else "")
  /\ str "min" = (if 0 <? pr_min (fs_priceRange f)
                  then Number_toString (pr_min (fs_priceRange f)) else "")
  /\ str "max" = (if 0 <? pr_max (fs_priceRange f)
                  then Number_toString (pr_max (fs_priceRange f)) else "").
Proof.
  intros o str. unfold str, o, filterStateToUrlParams.
  repeat split; obj_get_set.
Qed.

Lemma parse_price_roundtrip n :
  0 <= n <= 1000000 ->
  (0 < n -> parseFloat (Number_toString n) = Some n
            /\ Number_toString n <> "") ->
  parse_price parseFloat (if 0 <? n then Number_toString n else "") = Some n.
Proof.
  intros Hn Hrt. destruct (Z.ltb_spec 0 n) as [Hpos|Hle].
  - destruct (Hrt Hpos) as [Hp Hne].
    unfold parse_price. rewrite (Search.truthy_true _ Hne), Hp. simpl.
    f_equal. lia.
  - replace n with 0 by lia. reflexivity.
Qed.

(** Claim C10. Serializing a filter state whose text fields are trimmed
    and at most 200, 100 and 100 characters long, and whose prices lie in
    [0, 1000000], and parsing the parameters back, gives the same filter
    state; an omitted text field comes back as the empty string and an
    omitted price as 0. The hypotheses on [toString] and [parseFloat] are
    the JavaScript facts that [parseFloat(n.toString())] is [n] and that
    [n.toString()] is not empty, at the two prices. *)
Theorem urlParamsToFilterState_filterStateToUrlParams f
  (Hq : trim (fs_query f) = fs_query f)
  (Hq_len : (String.length (fs_query f) <= 200)%nat)
  (Hc : trim (fs_category f) = fs_category f)
  (Hc_len : (String.length (fs_category f) <= 100)%nat)
  (Hl : trim (fs_location f) = fs_location f)
  (Hl_len : (String.length (fs_location f) <= 100)%nat)
  (Hmin : 0 <= pr_min (fs_priceRange f) <= 1000000)
  (Hmax : 0 <= pr_max (fs_priceRange f) <= 1000000)
  (Hmin_rt : 0 < pr_min (fs_priceRange f) ->
     parseFloat (Number_toString (pr_min (fs_priceRange f)))
     = Some (pr_min (fs_priceRange f))
     /\ Number_toString (pr_min (fs_priceRange f)) <> "")
  (Hmax_rt : 0 < pr_max (fs_priceRange f) ->
     parseFloat (Number_toString (pr_max (fs_priceRange f)))
     = Some (pr_max (fs_priceRange f))
     /\ Number_toString (pr_max (fs_priceRange f)) <> "") :
  urlParamsToFilterState parseFloat
    (record_of_strings (filterStateToUrlParams Number_toString f)) = f.
Proof.
  destruct (filterStateToUrlParams_get f) as (Gq & Gc & Gl & Gmin & Gmax).
  unfold urlParamsToFilterState. rewrite !getFirstValue_record.
  rewrite Gq, Gc, Gl, Gmin, Gmax.
  rewrite (parse_price_roundtrip _ Hmin Hmin_rt),
          (parse_price_roundtrip _ Hmax Hmax_rt).
  rewrite (sanitize_field _ _ Hq Hq_len), (sanitize_field _ _ Hc Hc_len),
          (sanitize_field _ _ Hl Hl_len).
  destruct f as [q c l [mn mx]]. reflexivity.
Qed.

End Roundtrip.

Lemma urlParamsToFilterState_filterStateToUrlParams_witness :
  let f := {| fs_query := "desk lamp"; fs_category := "Electronics";
              fs_location := "";
              fs_priceRange := {| pr_min := 250; pr_max := 0 |} |} in
  urlParamsToFilterState decimal_parse
    (record_of_strings (filterStateToUrlParams decimal_toString f)) = f.
Proof.
  apply urlParamsToFilterState_filterStateToUrlParams;
    try reflexivity; try (simpl; lia).
  intros _. split; [reflexivity | intro H; vm_compute in H; discriminate H].
Defined.

End Filters.

(** * Further properties of the services *)

(** ** [String.prototype.trim] *)
Module Trim.

Lemma trim_start_suffix s :
  exists pre, list_ascii_of_string s = (pre ++ list_ascii_of_string (trim_start s))%list.
Proof.
  induction s as [|c r IH]; simpl.
  - now exists [].
  - destruct (is_js_space c).
    + destruct IH as [pre ->]. now exists (c :: pre).
    + now exists [].
Qed.

Lemma trim_start_first s : first_ok (list_ascii_of_string (trim_start s)).
Proof.
  induction s as [|c r IH]; simpl; [exact I |].
  destruct (is_js_space c) eqn:E; [exact IH | exact E].
Qed.

Lemma trim_start_id s : first_ok (list_ascii_of_string s) -> trim_start s = s.
Proof. destruct s as [|c r]; simpl; [reflexivity |]. now intros ->. Qed.

Lemma trim_start_idem s : trim_start (trim_start s) = trim_start s.
Proof. apply trim_start_id, trim_start_first. Qed.

Lemma list_str_rev s :
  list_ascii_of_string (str_rev s) = rev (list_ascii_of_string s).
Proof. unfold str_rev. apply list_ascii_of_string_of_list_ascii. Qed.

Lemma str_rev_involutive s : str_rev (str_rev s) = s.
Proof.
  unfold str_rev at 1. rewrite list_str_rev, rev_involutive.
  apply string_of_list_ascii_of_string.
Qed.

(** The result of [trim] starts with no white space. *)
Lemma trim_start_trim s : trim_start (trim s) = trim s.
Proof.
  unfold trim.
  set (u := trim_start s). set (w := trim_start (str_rev u)).
  apply trim_start_id. rewrite list_str_rev.
  destruct (trim_start_suffix (str_rev u)) as [pre Hpre].
  fold w in Hpre. rewrite list_str_rev in Hpre.
  destruct (list_ascii_of_string w) as [|c0 l0] eqn:Ew; [exact I |].
  destruct (exists_last (l:=c0 :: l0) ltac:(discriminate)) as (l' & c & Hl).
  rewrite Hl in Hpre |- *. rewrite rev_app_distr. simpl.
  apply (f_equal (@rev ascii)) in Hpre.
  rewrite rev_involutive, app_assoc, rev_app_distr in Hpre. simpl in Hpre.
  pose proof (trim_start_first s) as Hf. fold u in Hf.
  rewrite Hpre in Hf. exact Hf.
Qed.

Lemma trim_idem s : trim (trim s) = trim s.
Proof.
  unfold trim at 1. rewrite trim_start_trim.
  unfold trim. rewrite str_rev_involutive, trim_start_idem. reflexivity.
Qed.

End Trim.

(** ** The pagination service, further *)
Module PaginationMore.

Lemma In_range_incl x a b : In x (range_incl a b) <-> a <= x <= b.
Proof.
  unfold range_incl. rewrite in_map_iff. split.
  - intros (i & <- & Hi). apply in_seq in Hi. lia.
  - intros H. exists (Z.to_nat (x - a)). split; [lia |].
    apply in_seq. lia.
Qed.

Lemma StronglySorted_app {A} (R : A -> A -> Prop) l1 l2 :
  StronglySorted R l1 -> StronglySorted R l2 ->
  (forall x y, In x l1 -> In y l2 -> R x y) -> StronglySorted R (l1 ++ l2).
Proof.
  induction l1 as [|a l1 IH]; simpl; intros H1 H2 H; [exact H2 |].
  apply StronglySorted_inv in H1 as [H1 Ha].
  constructor.
  - apply IH; auto.
  - apply Forall_app. split; [exact Ha |].
    apply Forall_forall. intros y Hy. apply H; auto.
Qed.

Lemma range_incl_sorted a b : StronglySorted Z.lt (range_incl a b).
Proof.
  unfold range_incl. generalize (Z.to_nat (b - a + 1)) as n. generalize 0%nat as s.
  intros s n. revert s. induction n as [|n IH]; intros s; simpl; constructor.
  - apply IH.
  - apply Forall_forall. intros y Hy. apply in_map_iff in Hy as (i & <- & Hi).
    apply in_seq in Hi. lia.
Qed.

Lemma range_incl_cons a b :
  a <= b -> range_incl a b = a :: range_incl (a + 1) b.
Proof.
  intros H. unfold range_incl.
  replace (Z.to_nat (b - a + 1)) with (S (Z.to_nat (b - (a + 1) + 1))) by lia.
  simpl. rewrite Z.add_0_r. f_equal.
  rewrite <- seq_shift, map_map. apply map_ext. intros i. lia.
Qed.

Lemma range_incl_snoc a b :
  a <= b -> range_incl a b = (range_incl a (b - 1) ++ [b])%list.
Proof.
  intros H. unfold range_incl.
  replace (Z.to_nat (b - a + 1)) with (S (Z.to_nat (b - 1 - a + 1))) by lia.
  rewrite seq_S, map_app. simpl. f_equal. f_equal. lia.
Qed.

Lemma range_incl_nil a b : b < a -> range_incl a b = [].
Proof. intros H. unfold range_incl. replace (Z.to_nat (b - a + 1)) with 0%nat by lia. reflexivity. Qed.

Lemma page_numbers_app l1 l2 :
  page_numbers (l1 ++ l2) = (page_numbers l1 ++ page_numbers l2)%list.
Proof. induction l1 as [|[n|] r IH]; simpl; congruence. Qed.

Lemma page_numbers_map l : page_numbers (map PageNum l) = l.
Proof. induction l as [|n r IH]; simpl; congruence. Qed.

Lemma small_pages tp :
  map (fun i => PageNum (Z.of_nat i + 1)) (seq 0 (Z.to_nat tp))
  = map PageNum (range_incl 1 tp).
Proof.
  unfold range_incl. rewrite map_map.
  replace (Z.to_nat (tp - 1 + 1)) with (Z.to_nat tp) by lia.
  apply map_ext. intros i. f_equal. lia.
Qed.

(** The numbered entries of the long form: page 1, pages strictly between
    1 and [totalPages], and [totalPages] when it is not 1. *)
Lemma assemble_sorted R tp :
  StronglySorted Z.lt R -> (forall x, In x R -> 2 <= x <= tp - 1) -> 1 <= tp ->
  StronglySorted Z.lt ([1] ++ R ++ (if 1 <? tp then [tp] else []))
  /\ (forall n, In n ([1] ++ R ++ (if 1 <? tp then [tp] else [])) -> 1 <= n <= tp)
  /\ hd_error ([1] ++ R ++ (if 1 <? tp then [tp] else [])) = Some 1
  /\ last ([1] ++ R ++ (if 1 <? tp then [tp] else [])) 0 = tp.
Proof.
  intros HS HR Htp.
  set (ns := ([1] ++ R ++ (if 1 <? tp then [tp] else []))%list).
  destruct (Z.ltb_spec 1 tp) as [Hlt|Hge].
  - unfold ns. replace (1 <? tp) with true by (symmetry; apply Z.ltb_lt; lia).
    simpl app. split; [| split; [| split]].
    + constructor.
      * apply StronglySorted_app; auto.
        -- repeat constructor.
        -- intros x y Hx [<-|[]]. specialize (HR x Hx). lia.
      * apply Forall_forall. intros y Hy. apply in_app_iff in Hy as [Hy|[<-|[]]].
        -- specialize (HR y Hy). lia.
        -- lia.
    + intros n [<-|Hn]; [lia |]. apply in_app_iff in Hn as [Hn|[<-|[]]].
      * specialize (HR n Hn). lia.
      * lia.
    + reflexivity.
    + change (1 :: R ++ [tp])%list with ((1 :: R) ++ [tp])%list.
      apply last_last.
  - assert (tp = 1) as -> by lia.
    destruct R as [|x R']; [| specialize (HR x (or_introl eq_refl)); lia].
    unfold ns. simpl. split; [repeat constructor | split; [| split; reflexivity]].
    intros n [<-|[]]. lia.
Qed.

Lemma half_bounds mv : 0 <= mv -> 2 * (mv / 2) <= mv < 2 * (mv / 2) + 2.
Proof.
  intros H. pose proof (Z.div_mod mv 2 ltac:(lia)).
  pose proof (Z.mod_pos_bound mv 2 ltac:(lia)). lia.
Qed.

Lemma generatePageNumbers_numbers cp tp mv :
  1 <= tp ->
  let ns := page_numbers (generatePageNumbers cp tp mv) in
  StronglySorted Z.lt ns /\ (forall n, In n ns -> 1 <= n <= tp)
  /\ hd_error ns = Some 1 /\ last ns 0 = tp.
Proof.
  intros Htp ns. unfold ns, generatePageNumbers.
  destruct (Z.leb_spec tp mv) as [Hsmall|Hbig].
  - rewrite small_pages, page_numbers_map.
    split; [apply range_incl_sorted | split; [| split]].
    + intros n Hn. now apply In_range_incl in Hn.
    + rewrite range_incl_cons by lia. reflexivity.
    + rewrite range_incl_snoc by lia. apply last_last.
  - rewrite !page_numbers_app. simpl page_numbers at 1.
    replace (page_numbers (if 1 <? tp then [PageNum tp] else []))
      with (if 1 <? tp then [tp] else []) by (now destruct (1 <? tp)).
    set (h := mv / 2).
    destruct (Z.leb_spec cp (h + 2)) as [Hc1|Hc1];
      [| destruct (Z.leb_spec (tp - h - 1) cp) as [Hc2|Hc2]].
    + rewrite page_numbers_app, page_numbers_map.
      replace (page_numbers (if mv - 1 <? tp then [Ellipsis] else [])) with (@nil Z)
        by (now destruct (mv - 1 <? tp)).
      rewrite app_nil_r. apply assemble_sorted; auto using range_incl_sorted.
      intros x Hx. apply In_range_incl in Hx. lia.
    + rewrite page_numbers_app, page_numbers_map.
      replace (page_numbers (if mv - 1 <? tp then [Ellipsis] else [])) with (@nil Z)
        by (now destruct (mv - 1 <? tp)).
      rewrite app_nil_l. apply assemble_sorted; auto using range_incl_sorted.
      intros x Hx. apply In_range_incl in Hx. lia.
    + simpl page_numbers. rewrite page_numbers_app, page_numbers_map. simpl.
      rewrite app_nil_r.
      apply assemble_sorted; auto using range_incl_sorted.
      intros x Hx. apply In_range_incl in Hx. lia.
Qed.

Lemma generatePageNumbers_current cp tp mv :
  5 <= mv -> 1 <= cp <= tp ->
  In (PageNum cp) (generatePageNumbers cp tp mv).
Proof.
  intros Hmv Hcp. unfold generatePageNumbers.
  pose proof (half_bounds mv ltac:(lia)) as Hh.
  destruct (Z.leb_spec tp mv) as [Hsmall|Hbig].
  - rewrite small_pages. apply in_map, In_range_incl. lia.
  - cbv zeta. set (h := mv / 2) in *.
    destruct (Z.eq_dec cp 1) as [->|Hn1]; [now left |].
    apply in_app_iff. right. apply in_app_iff.
    destruct (Z.eq_dec cp tp) as [->|Hntp].
    { right. destruct (Z.ltb_spec 1 tp); [now left | lia]. }
    left.
    destruct (Z.leb_spec cp (h + 2)) as [Hc1|Hc1];
      [| destruct (Z.leb_spec (tp - h - 1) cp) as [Hc2|Hc2]].
    + apply in_app_iff. left. apply in_map, In_range_incl. lia.
    + apply in_app_iff. right. apply in_map, In_range_incl. lia.
    + apply in_app_iff. right. apply in_app_iff. left.
      apply in_map, In_range_incl. lia.
Qed.

Lemma adjacent_app l1 l2 :
  has_adjacent_ellipses (l1 ++ Ellipsis :: Ellipsis :: l2) = true.
Proof.
  induction l1 as [|x r IH]; simpl; [reflexivity |].
  rewrite IH. apply orb_true_r.
Qed.

Lemma adjacent_map_PageNum R l :
  has_adjacent_ellipses (map PageNum R ++ l) = has_adjacent_ellipses l.
Proof. induction R as [|n R IH]; simpl; auto. Qed.

Lemma generatePageNumbers_no_adjacent cp tp mv :
  2 <= mv -> has_adjacent_ellipses (generatePageNumbers cp tp mv) = false.
Proof.
  intros Hmv. unfold generatePageNumbers.
  pose proof (half_bounds mv ltac:(lia)) as Hh.
  destruct (Z.leb_spec tp mv) as [Hsmall|Hbig].
  - rewrite small_pages. rewrite <- (app_nil_r (map PageNum _)).
    now rewrite adjacent_map_PageNum.
  - set (h := mv / 2) in *. simpl.
    destruct (Z.leb_spec cp (h + 2)) as [Hc1|Hc1];
      [| destruct (Z.leb_spec (tp - h - 1) cp) as [Hc2|Hc2]].
    + rewrite <- app_assoc, adjacent_map_PageNum.
      destruct (mv - 1 <? tp), (1 <? tp); reflexivity.
    + rewrite <- app_assoc. destruct (mv - 1 <? tp).
      * simpl.
        destruct (range_incl (Z.max (tp - mv + 2) 2) (tp - 1)) as [|x R];
          simpl; [destruct (1 <? tp); reflexivity |].
        rewrite adjacent_map_PageNum. destruct (1 <? tp); reflexivity.
      * simpl. rewrite adjacent_map_PageNum.
        destruct (1 <? tp); reflexivity.
    + rewrite range_incl_cons by lia. simpl.
      rewrite <- app_assoc, adjacent_map_PageNum.
      destruct (1 <? tp); reflexivity.
Qed.

Lemma StronglySorted_NoDup l : StronglySorted Z.lt l -> NoDup l.
Proof.
  induction l as [|a l IH]; intros H; constructor.
  - apply StronglySorted_inv in H as [_ H]. intros Ha.
    rewrite Forall_forall in H. specialize (H a Ha). lia.
  - apply IH. now apply StronglySorted_inv in H.
Qed.

Lemma filter_eqb_absent l x :
  ~ In x l -> filter (fun n => n =? x) l = [].
Proof.
  induction l as [|a l IH]; simpl; intros H; [reflexivity |].
  destruct (Z.eqb_spec a x); [tauto |]. apply IH. tauto.
Qed.

Lemma filter_eqb_single l x :
  NoDup l -> In x l -> filter (fun n => n =? x) l = [x].
Proof.
  induction l as [|a l IH]; simpl; intros Hnd Hin; [contradiction |].
  inversion Hnd as [|? ? Ha Hnd']; subst.
  destruct (Z.eqb_spec a x) as [->|Hne].
  - now rewrite filter_eqb_absent.
  - destruct Hin as [->|Hin]; [contradiction |]. auto.
Qed.

Lemma breadcrumbs_pages toS cp l :
  map bc_page (breadcrumbs_of toS cp l) = page_numbers l.
Proof. induction l as [|[n|] r IH]; simpl; congruence. Qed.

Lemma breadcrumbs_current toS cp l :
  map bc_page (filter bc_isCurrent (breadcrumbs_of toS cp l))
  = filter (fun n => n =? cp) (page_numbers l).
Proof.
  induction l as [|[n|] r IH]; simpl; auto.
  destruct (n =? cp); simpl; congruence.
Qed.

Lemma page_numbers_In n l : In (PageNum n) l -> In n (page_numbers l).
Proof.
  induction l as [|[m|] r IH]; simpl; intros H; [contradiction | |].
  - destruct H as [H|H]; [left; congruence | right; auto].
  - destruct H as [H|H]; [discriminate | auto].
Qed.

Lemma map_single {A B} (f : A -> B) l y :
  map f l = [y] -> exists x, l = [x] /\ f x = y.
Proof.
  destruct l as [|x [|]]; simpl; intros H; try discriminate.
  injection H as H. eauto.
Qed.

Lemma zpos_of_ge1 (ps : Z) : 1 <= ps -> exists p, ps = Zpos p.
Proof. destruct ps as [|p|p]; intros H; try lia. eauto. Qed.

Lemma percent_bounds (x : Q) :
  (0 <= x <= 100)%Q ->
  (0 <= inject_Z (Math_round (x * inject_Z 100)) / inject_Z 100 <= 100)%Q.
Proof.
  intros Hx. unfold Math_round.
  assert (0 <= Qfloor (x * inject_Z 100 + (1 # 2)))%Z as Hlo.
  { change 0%Z with (Qfloor (1 # 2)). apply Qfloor_resp_le.
    change (inject_Z 100) with 100%Q. lra. }
  assert (Qfloor (x * inject_Z 100 + (1 # 2)) <= 10000)%Z as Hhi.
  { change 10000%Z with (Qfloor (inject_Z 10000 + (1 # 2))). apply Qfloor_resp_le.
    change (inject_Z 100) with 100%Q. change (inject_Z 10000) with 10000%Q. lra. }
  revert Hlo Hhi. generalize (Qfloor (x * inject_Z 100 + (1 # 2))). intros r Hlo Hhi.
  unfold Qle, Qdiv, Qmult, Qinv, inject_Z; simpl. lia.
Qed.

Lemma str_length_app (s1 s2 : string) :
  String.length (s1 ++ s2) = (String.length s1 + String.length s2)%nat.
Proof. induction s1 as [|c s1 IH]; simpl; congruence. Qed.

Lemma append_eq_empty (s1 s2 : string) : s1 ++ s2 = "" -> s1 = "" /\ s2 = "".
Proof. destruct s1; simpl; [auto | discriminate]. Qed.

Lemma usp_delete_idem l k : usp_delete (usp_delete l k) k = usp_delete l k.
Proof. unfold usp_delete. rewrite Search.filter_filter. apply filter_ext. intros a. apply andb_diag. Qed.

Lemma usp_delete_set l k v : usp_delete (usp_set l k v) k = usp_delete l k.
Proof.
  induction l as [|[k' v'] r IH]; simpl.
  - unfold usp_delete. simpl. now rewrite String.eqb_refl.
  - destruct (String.eqb_spec k' k) as [->|Hne].
    + unfold usp_delete at 1. simpl. rewrite String.eqb_refl. simpl.
      fold (usp_delete (usp_delete r k) k). now rewrite usp_delete_idem.
    + apply String.eqb_neq in Hne. simpl.
      unfold usp_delete at 1. simpl. rewrite Hne. simpl. f_equal. exact IH.
Qed.

Lemma only_key_delete l k :
  filter (fun kv => String.eqb (fst kv) k) (usp_delete l k) = [].
Proof.
  induction l as [|[k' v'] r IH]; [reflexivity |].
  unfold usp_delete in *. simpl.
  destruct (String.eqb k' k) eqn:E; simpl; [exact IH |]. rewrite E. exact IH.
Qed.

Lemma only_key_set l k v :
  filter (fun kv => String.eqb (fst kv) k) (usp_set l k v) = [(k, v)].
Proof.
  induction l as [|[k' v'] r IH]; simpl.
  - now rewrite String.eqb_refl.
  - destruct (String.eqb k' k) eqn:E; simpl.
    + rewrite String.eqb_refl. f_equal. apply only_key_delete.
    + rewrite E. exact IH.
Qed.

Lemma usp_set_not_nil l k v : usp_set l k v <> [].
Proof. destruct l as [|[k' v'] r]; simpl; [discriminate |]. destruct (String.eqb k' k); discriminate. Qed.

Lemma usp_toString_empty enc l : usp_toString enc l = "" -> l = [].
Proof.
  unfold usp_toString. destruct l as [|[k v] r]; [reflexivity |]. intros H.
  exfalso. destruct r as [|kv r]; simpl in H.
  - apply append_eq_empty in H as [_ H]. discriminate H.
  - apply append_eq_empty in H as [H _].
    apply append_eq_empty in H as [_ H]. discriminate H.
Qed.

(** [generatePageNumbers]: for at least one page, the numbered entries
    increase strictly, lie between 1 and [totalPages], and run from page 1
    to page [totalPages]. *)
Theorem generatePageNumbers_shape cp tp mv :
  1 <= tp ->
  let ns := page_numbers (generatePageNumbers cp tp mv) in
  StronglySorted Z.lt ns /\ (forall n, In n ns -> 1 <= n <= tp)
  /\ hd_error ns = Some 1 /\ last ns 0 = tp.
Proof. apply generatePageNumbers_numbers. Qed.

Lemma generatePageNumbers_shape_witness :
  1 <= 12 /\
  (let ns := page_numbers (generatePageNumbers 6 12 7) in
   StronglySorted Z.lt ns /\ (forall n, In n ns -> 1 <= n <= 12)
   /\ hd_error ns = Some 1 /\ last ns 0 = 12).
Proof. split; [lia | apply (generatePageNumbers_shape 6 12 7); lia]. Defined.

(** [generatePageNumbers]: with [maxVisible] at least 5, a current page
    between 1 and [totalPages] is always among the numbered entries. *)
Theorem generatePageNumbers_shows_current cp tp mv :
  5 <= mv -> 1 <= cp <= tp -> In (PageNum cp) (generatePageNumbers cp tp mv).
Proof. apply generatePageNumbers_current. Qed.

Lemma generatePageNumbers_shows_current_witness :
  5 <= 7 /\ 1 <= 9 <= 20 /\ In (PageNum 9) (generatePageNumbers 9 20 7).
Proof.
  split; [lia | split; [lia | apply (generatePageNumbers_shows_current 9 20 7); lia]].
Defined.

(** [generatePageNumbers]: with [maxVisible] at least 2, two ellipsis
    markers never stand next to each other. *)
Theorem generatePageNumbers_no_double_ellipsis cp tp mv :
  2 <= mv ->
  forall l1 l2, generatePageNumbers cp tp mv <> (l1 ++ Ellipsis :: Ellipsis :: l2)%list.
Proof.
  intros Hmv l1 l2 Heq.
  pose proof (generatePageNumbers_no_adjacent cp tp mv Hmv) as H.
  rewrite Heq, adjacent_app in H. discriminate H.
Qed.

Lemma generatePageNumbers_no_double_ellipsis_witness :
  2 <= 7 /\ forall l1 l2,
    generatePageNumbers 10 20 7 <> (l1 ++ Ellipsis :: Ellipsis :: l2)%list.
Proof. split; [lia | apply (generatePageNumbers_no_double_ellipsis 10 20 7); lia]. Defined.

(** [generateBreadcrumbs]: for a current page between 1 and [totalPages],
    the breadcrumb pages increase strictly and exactly one breadcrumb is
    marked current, the one of the current page. *)
Theorem generateBreadcrumbs_one_current toS cp tp :
  1 <= cp <= tp ->
  let bcs := generateBreadcrumbs toS cp tp in
  StronglySorted Z.lt (map bc_page bcs)
  /\ exists b, filter bc_isCurrent bcs = [b] /\ bc_page b = cp.
Proof.
  intros Hcp bcs. unfold bcs, generateBreadcrumbs.
  destruct (generatePageNumbers_numbers cp tp 7 ltac:(lia)) as (HS & _).
  pose proof (generatePageNumbers_current cp tp 7 ltac:(lia) Hcp) as Hin.
  split.
  - rewrite breadcrumbs_pages. exact HS.
  - apply map_single with (f := bc_page).
    rewrite breadcrumbs_current.
    apply filter_eqb_single; [now apply StronglySorted_NoDup |].
    now apply page_numbers_In.
Qed.

Lemma generateBreadcrumbs_one_current_witness :
  1 <= 5 <= 20 /\
  (let bcs := generateBreadcrumbs decimal_toString 5 20 in
   StronglySorted Z.lt (map bc_page bcs)
   /\ exists b, filter bc_isCurrent bcs = [b] /\ bc_page b = 5).
Proof. split; [lia | apply (generateBreadcrumbs_one_current decimal_toString 5 20); lia]. Defined.

(** [calculatePagination]: for a positive page size and a current page
    between 1 and [totalPages], the page starts at [calculateOffset + 1],
    covers at most [pageSize] items ending at or before [totalCount], has
    a next page exactly when it ends before [totalCount], and is the last
    page exactly when it has no next page. *)
Theorem calculatePagination_window tc cp ps :
  1 <= ps -> 1 <= cp <= pm_totalPages (calculatePagination tc cp ps) ->
  let m := calculatePagination tc cp ps in
  pm_startIndex m = calculateOffset cp ps + 1
  /\ 1 <= pm_startIndex m <= pm_endIndex m /\ pm_endIndex m <= tc
  /\ pm_endIndex m - pm_startIndex m + 1 <= ps
  /\ pm_hasNextPage m = (pm_endIndex m <? tc)
  /\ pm_isLastPage m = negb (pm_hasNextPage m).
Proof.
  intros Hps Hcp m. destruct (zpos_of_ge1 ps Hps) as [p ->].
  pose proof (Pagination.ceiling_bounds tc p) as [Hlo Hhi].
  unfold m, calculatePagination, calculateOffset in *. simpl in *.
  set (tp := Qceiling (inject_Z tc / inject_Z (Zpos p))) in *.
  split; [reflexivity |]. split; [nia |]. split; [lia |]. split; [nia |].
  destruct (Z.ltb_spec cp tp), (Z.ltb_spec (Z.min (cp * Zpos p) tc) tc),
    (Z.eqb_spec cp tp); simpl; split; auto; nia.
Qed.

Lemma calculatePagination_window_witness :
  1 <= 20 /\ 1 <= 3 <= pm_totalPages (calculatePagination 45 3 20) /\
  (let m := calculatePagination 45 3 20 in
   pm_startIndex m = calculateOffset 3 20 + 1
   /\ 1 <= pm_startIndex m <= pm_endIndex m /\ pm_endIndex m <= 45
   /\ pm_endIndex m - pm_startIndex m + 1 <= 20
   /\ pm_hasNextPage m = (pm_endIndex m <? 45)
   /\ pm_isLastPage m = negb (pm_hasNextPage m)).
Proof.
  split; [lia | split; [vm_compute; split; discriminate |]].
  apply (calculatePagination_window 45 3 20); [lia | vm_compute; split; discriminate].
Defined.

(** [isPaginationNeeded]: for a positive page size, pagination is needed
    exactly when [calculatePagination] counts more than one page. *)
Theorem isPaginationNeeded_iff_pages tc ps :
  1 <= ps ->
  isPaginationNeeded tc ps = (1 <? pm_totalPages (calculatePagination tc 1 ps)).
Proof.
  intros Hps. destruct (zpos_of_ge1 ps Hps) as [p ->].
  pose proof (Pagination.ceiling_bounds tc p) as [Hlo Hhi].
  unfold isPaginationNeeded, calculatePagination. simpl.
  set (tp := Qceiling (inject_Z tc / inject_Z (Zpos p))) in *.
  destruct (Z.ltb_spec (Zpos p) tc), (Z.ltb_spec 1 tp); auto; nia.
Qed.

Lemma isPaginationNeeded_iff_pages_witness :
  1 <= 20 /\
  isPaginationNeeded 45 20 = (1 <? pm_totalPages (calculatePagination 45 1 20)).
Proof. split; [lia | apply (isPaginationNeeded_iff_pages 45 20); lia]. Defined.

(** [validatePageSize] always returns one of the sizes offered by
    [getPageSizeOptions], and leaves a size unchanged exactly when it is
    one of them. *)
Theorem validatePageSize_options n :
  In (validatePageSize n) (map fst getPageSizeOptions)
  /\ (validatePageSize n = n <-> In n (map fst getPageSizeOptions)).
Proof.
  assert (Hiff : existsb (Z.eqb n) validSizes = true
                 <-> In n (map fst getPageSizeOptions)).
  { rewrite existsb_exists. simpl. split.
    - intros (x & Hx & E). apply Z.eqb_eq in E. subst. exact Hx.
    - intros H. exists n. split; [exact H | apply Z.eqb_refl]. }
  unfold validatePageSize.
  destruct (existsb (Z.eqb n) validSizes) eqn:E.
  - split; [now apply Hiff | tauto].
  - split; [simpl; tauto |]. split.
    + intros <-. simpl in E. discriminate E.
    + intros H. apply Hiff in H. discriminate H.
Qed.

(** [calculatePerformanceMetrics]: for non-negative arguments, the loaded
    and remaining items add up to [totalCount], the percentage lies
    between 0 and 100 and is 100 once every item is loaded, and the
    estimated load time is at least 100. *)
Theorem calculatePerformanceMetrics_bounds tc ps cp :
  0 <= tc -> 0 <= ps -> 0 <= cp ->
  let m := calculatePerformanceMetrics tc ps cp in
  pf_loadedItems m + pf_remainingItems m = tc /\ 0 <= pf_loadedItems m
  /\ (0 <= pf_loadedPercentage m <= 100)%Q
  /\ (0 < tc -> tc <= cp * ps -> (pf_loadedPercentage m == 100)%Q)
  /\ 100 <= pf_estimatedLoadTime m.
Proof.
  intros Htc Hps Hcp m. unfold m, calculatePerformanceMetrics. simpl.
  assert (0 <= cp * ps) by nia.
  split; [lia |]. split; [lia |].
  split; [| split; [| unfold estimateLoadTime; lia]].
  - apply percent_bounds. destruct (Z.ltb_spec 0 tc) as [Hpos|Hz].
    + destruct tc as [|t|t]; try lia.
      split; unfold Qle, Qdiv, Qmult, Qinv, inject_Z; simpl; nia.
    + split; discriminate.
  - intros Hpos Hall.
    destruct (Z.ltb_spec 0 tc); [| lia].
    replace (Z.min (cp * ps) tc) with tc by lia.
    assert (E : (inject_Z tc / inject_Z tc * inject_Z 100 * inject_Z 100
                 == inject_Z 10000)%Q).
    { destruct tc as [|t|t]; try lia.
      unfold Qeq, Qdiv, Qmult, Qinv, inject_Z; simpl. nia. }
    unfold Math_round. rewrite E. reflexivity.
Qed.

Lemma calculatePerformanceMetrics_bounds_witness :
  0 <= 41 /\ 0 <= 20 /\ 0 <= 2 /\
  (let m := calculatePerformanceMetrics 41 20 2 in
   pf_loadedItems m + pf_remainingItems m = 41 /\ 0 <= pf_loadedItems m
   /\ (0 <= pf_loadedPercentage m <= 100)%Q
   /\ (0 < 41 -> 41 <= 2 * 20 -> (pf_loadedPercentage m == 100)%Q)
   /\ 100 <= pf_estimatedLoadTime m).
Proof.
  split; [lia | split; [lia | split; [lia |]]].
  apply (calculatePerformanceMetrics_bounds 41 20 2); lia.
Defined.

(** [generatePageUrl]'s parameters: setting the page keeps every entry not
    named [page] in place, and leaves a single [page] entry for a page
    above 1 and none otherwise. *)
Theorem generatePageUrl_page_entries toS page sp :
  usp_delete (page_params toS page sp) "page" = usp_delete sp "page"
  /\ filter (fun kv => String.eqb (fst kv) "page") (page_params toS page sp)
     = (if 1 <? page then [("page", toS page)] else []).
Proof.
  unfold page_params. destruct (1 <? page).
  - split; [apply usp_delete_set | apply only_key_set].
  - split; [apply usp_delete_idem | apply only_key_delete].
Qed.

(** [generatePageUrl] returns [baseUrl] unchanged exactly when the page is
    at most 1 and the parameters have no entry other than [page]. *)
Theorem generatePageUrl_bare enc toS base page sp :
  generatePageUrl enc toS base page sp = base
  <-> page <= 1 /\ usp_delete sp "page" = [].
Proof.
  unfold generatePageUrl.
  assert (Hpp : page_params toS page sp = [] <-> page <= 1 /\ usp_delete sp "page" = []).
  { unfold page_params. destruct (Z.ltb_spec 1 page) as [Hp|Hp].
    - split; [intros Hn; now apply usp_set_not_nil in Hn | lia].
    - tauto. }
  rewrite <- Hpp. unfold truthy.
  destruct (String.eqb_spec (usp_toString enc (page_params toS page sp)) "") as [E|E];
    simpl.
  - apply usp_toString_empty in E. tauto.
  - split.
    + intros H. exfalso. apply (f_equal String.length) in H.
      rewrite str_length_app in H. simpl in H. lia.
    + intros H. rewrite H in E. contradiction.
Qed.

End PaginationMore.

(** ** The filter service, further *)
Module FiltersMore.

Ltac case_filters f :=
  destruct (truthy (trim (fs_query f))), (truthy (trim (fs_category f))),
    (truthy (trim (fs_location f))), (0 <? pr_min (fs_priceRange f)),
    (0 <? pr_max (fs_priceRange f)).

Lemma slice0_length s n : (String.length (slice0 s n) <= n)%nat.
Proof.
  unfold slice0. revert s. induction n as [|n IH]; intros [|c s]; simpl; try lia.
  specialize (IH s). lia.
Qed.

Lemma sanitizeString_length s n : (String.length (sanitizeString s n) <= n)%nat.
Proof. apply slice0_length. Qed.

Lemma obj_set_not_nil {V} (o : list (string * V)) k v : obj_set o k v <> [].
Proof. destruct o as [|[k' v'] r]; simpl; [discriminate |]. destruct (String.eqb k k'); discriminate. Qed.

(** A URL with the query string of [l] appended when it is not empty. *)
Lemma query_url_bare enc base l :
  (let qs := usp_toString enc l in if truthy qs then base ++ "?" ++ qs else base)
  = base <-> l = [].
Proof.
  simpl. unfold truthy.
  destruct (String.eqb_spec (usp_toString enc l) "") as [E|E]; simpl.
  - apply PaginationMore.usp_toString_empty in E. tauto.
  - split.
    + intros H. exfalso. apply (f_equal String.length) in H.
      rewrite PaginationMore.str_length_app in H. simpl in H. lia.
    + intros H. rewrite H in E. contradiction.
Qed.

Lemma getActiveFilterCount_props f :
  (getActiveFilterCount f = 0%nat <-> hasActiveFilters f = false)
  /\ (getActiveFilterCount f <= 4)%nat.
Proof.
  unfold getActiveFilterCount, hasActiveFilters. case_filters f; simpl;
    (split; [split; intros; (reflexivity || discriminate) | lia]).
Qed.

Lemma validatePriceRange_iff mn mx :
  fst (validatePriceRange mn mx) = true
  <-> 0 <= mn <= 1000000 /\ 0 <= mx <= 1000000 /\ (mx = 0 \/ mn <= mx).
Proof.
  unfold validatePriceRange.
  destruct (Z.ltb_spec mn 0), (Z.ltb_spec mx 0); simpl;
    try (split; [discriminate | lia]).
  destruct (Z.ltb_spec mx mn), (Z.ltb_spec 0 mx); simpl;
    try (split; [discriminate | lia]);
    destruct (Z.ltb_spec 1000000 mn), (Z.ltb_spec 1000000 mx); simpl;
    (split; [intros; try discriminate; lia | intros; try reflexivity; lia]).
Qed.

Lemma trimmed_field n s :
  (String.length (trim s) <= n)%nat ->
  zstring_trim_max n (option_map JStr (if truthy (trim s) then Some (trim s) else None))
  = Some (if truthy (trim s) then Some (trim s) else None).
Proof.
  intros Hl. destruct (truthy (trim s)); [| reflexivity].
  simpl. rewrite Trim.trim_idem.
  replace ((String.length (trim s) <=? n)%nat) with true
    by (symmetry; apply Nat.leb_le; exact Hl).
  reflexivity.
Qed.

Lemma positive_price_field N m :
  0 <= m <= 1000000 ->
  zoptional (znumber_range N 0 1000000)
    (option_map JNum (if 0 <? m then Some m else None))
  = Some (if 0 <? m then Some m else None).
Proof.
  intros Hm. destruct (0 <? m); [| reflexivity].
  simpl. unfold znumber_range. simpl.
  replace ((0 <=? m) && (m <=? 1000000)) with true by (symmetry; apply andb_true_iff; lia).
  reflexivity.
Qed.

Lemma filterStateToSearchParams_validates N f page limit :
  (String.length (trim (fs_query f)) <= 200)%nat ->
  (String.length (trim (fs_category f)) <= 100)%nat ->
  (String.length (trim (fs_location f)) <= 100)%nat ->
  fst (validatePriceRange (pr_min (fs_priceRange f)) (pr_max (fs_priceRange f))) = true ->
  1 <= page <= 1000 -> 1 <= limit <= 100 ->
  validateSearchParams N (filterStateToSearchParams f page limit)
  = Some (filterStateToSearchParams f page limit).
Proof.
  intros Hq Hc Hl Hpr Hpage Hlimit.
  apply validatePriceRange_iff in Hpr as (Hmn & Hmx & Hle).
  unfold validateSearchParams, SearchParamsSchema_safeParse.
  destruct (Search.params_object_get (filterStateToSearchParams f page limit))
    as (Gq & Gc & Gmin & Gmax & Gl & Gp & Glim).
  rewrite Gq, Gc, Gmin, Gmax, Gl, Gp, Glim.
  unfold filterStateToSearchParams at 1 2 3 4 5 6 7.
  cbn [sp_q sp_category sp_min sp_max sp_location sp_page sp_limit].
  rewrite (trimmed_field 200 _ Hq), (trimmed_field 100 _ Hc), (trimmed_field 100 _ Hl).
  rewrite (positive_price_field N _ Hmn), (positive_price_field N _ Hmx).
  replace (zdefault 1 (znumber_range N 1 1000) (Some (JNum page))) with (Some page)
    by (simpl; unfold znumber_range; simpl;
        replace ((1 <=? page) && (page <=? 1000)) with true
          by (symmetry; apply andb_true_iff; lia); reflexivity).
  replace (zoptional (fun x => zdefault 20 (znumber_range N 1 100) (Some x))
             (option_map JNum (Some limit))) with (Some (Some limit))
    by (simpl; unfold znumber_range; simpl;
        replace ((1 <=? limit) && (limit <=? 100)) with true
          by (symmetry; apply andb_true_iff; lia); reflexivity).
  replace (min_le_max _ _) with true.
  - reflexivity.
  - destruct (Z.ltb_spec 0 (pr_min (fs_priceRange f))),
      (Z.ltb_spec 0 (pr_max (fs_priceRange f))); simpl; try reflexivity.
    symmetry. apply Z.leb_le. lia.
Qed.

Lemma filter_state_ok_clear : filter_state_ok clearAllFilters.
Proof. repeat split; simpl; lia. Qed.

Lemma filter_state_ok_url pf sp : filter_state_ok (urlParamsToFilterState pf sp).
Proof.
  unfold urlParamsToFilterState, filter_state_ok; simpl.
  split; [apply sanitizeString_length |].
  split; [apply sanitizeString_length |].
  split; [apply sanitizeString_length |].
  assert (Hp : forall s m, parse_price pf s = Some m -> 0 <= m <= 1000000).
  { intros s m. unfold parse_price, sanitizeNumber.
    destruct (truthy s); [destruct (pf s) |]; intros H; try discriminate H; injection H as <-; lia. }
  destruct (parse_price pf (getFirstValue (obj_get sp "min"))) as [a|] eqn:Ea;
    [| simpl; lia].
  destruct (parse_price pf (getFirstValue (obj_get sp "max"))) as [b|] eqn:Eb;
    [| simpl; lia].
  apply Hp in Ea. apply Hp in Eb. simpl. lia.
Qed.

Lemma filter_state_ok_remove f t :
  filter_state_ok f -> filter_state_ok (removeFilter f t).
Proof.
  unfold filter_state_ok. intros H.
  destruct t; simpl; repeat split; simpl; lia.
Qed.

Lemma filter_state_ok_update N f t v f' :
  filter_state_ok f -> updateFilter N f t v = Some f' -> filter_state_ok f'.
Proof.
  unfold filter_state_ok, updateFilter. intros H.
  pose proof (sanitizeString_length) as Hs.
  destruct t.
  - destruct v; simpl; intros E; try discriminate.
    injection E as <-; simpl. specialize (Hs s 200%nat). intuition.
  - destruct v; simpl; intros E; try discriminate.
    injection E as <-; simpl. specialize (Hs s 100%nat). intuition.
  - destruct v; simpl; intros E; try discriminate.
    injection E as <-; simpl. specialize (Hs s 100%nat). intuition.
  - destruct v as [s|n|mn mx|]; intros E; try (injection E as <-; exact H).
    assert (Hb : forall o old a,
               0 <= old <= 1000000 ->
               match o with
               | Some x => sanitizeNumber (coerce_number N x) 0 1000000
               | None => Some old
               end = Some a -> 0 <= a <= 1000000).
    { intros [x|] old a Hold; unfold sanitizeNumber.
      - destruct (coerce_number N x); intros Ha; try discriminate Ha; injection Ha as <-; lia.
      - intros Ha; injection Ha as <-; exact Hold. }
    destruct H as (H1 & H2 & H3 & H4 & H5).
    destruct (match mn with Some x => _ | None => _ end) as [a|] eqn:Ea; [| discriminate].
    destruct (match mx with Some x => _ | None => _ end) as [b|] eqn:Eb; [| discriminate].
    injection E as <-. simpl.
    pose proof (Hb mn _ a H4 Ea). pose proof (Hb mx _ b H5 Eb).
    split; [exact H1 | split; [exact H2 | split; [exact H3 | split; assumption]]].
Qed.

(** [getActiveFilterCount] is 0 exactly when [hasActiveFilters] is false,
    and never exceeds 4. *)
Theorem getActiveFilterCount_zero_iff f :
  (getActiveFilterCount f = 0%nat <-> hasActiveFilters f = false)
  /\ (getActiveFilterCount f <= 4)%nat.
Proof. apply getActiveFilterCount_props. Qed.

(** [createFilterPills] makes one pill per active filter, as many as
    [getActiveFilterCount] counts, and never two pills of the same type. *)
Theorem createFilterPills_count fp f :
  length (createFilterPills fp f) = getActiveFilterCount f
  /\ NoDup (map (fun p => fst (fst p)) (createFilterPills fp f)).
Proof.
  unfold createFilterPills, getActiveFilterCount. case_filters f; simpl;
    (split; [reflexivity | repeat constructor; simpl; intuition discriminate]).
Qed.

(** [removeFilter] removes exactly the pill of that filter type from
    [createFilterPills], and removing the four filter types in turn gives
    [clearAllFilters]. *)
Theorem removeFilter_pills fp f t :
  createFilterPills fp (removeFilter f t)
  = filter (fun p => negb (FilterKey_eqb (fst (fst p)) t)) (createFilterPills fp f)
  /\ removeFilter (removeFilter (removeFilter (removeFilter f FKquery) FKcategory)
                     FKlocation) FKpriceRange = clearAllFilters.
Proof.
  split.
  - unfold createFilterPills. destruct t; simpl; case_filters f; reflexivity.
  - destruct f as [q c l [mn mx]]. reflexivity.
Qed.

(** [generateFilterDescription] is ["All products"] exactly when no filter
    is active. *)
Theorem generateFilterDescription_all fp f :
  generateFilterDescription fp f = "All products" <-> hasActiveFilters f = false.
Proof.
  unfold generateFilterDescription, hasActiveFilters. case_filters f; simpl;
    (split; intros H; [discriminate H || reflexivity | discriminate H || reflexivity]).
Qed.

(** [filterStateToUrlParams] is empty, and [generateCanonicalUrl] returns
    the base URL unchanged, exactly when no filter is active. *)
Theorem generateCanonicalUrl_bare enc toS base f :
  (filterStateToUrlParams toS f = [] <-> hasActiveFilters f = false)
  /\ (generateCanonicalUrl enc toS base f = base <-> hasActiveFilters f = false).
Proof.
  assert (H : filterStateToUrlParams toS f = [] <-> hasActiveFilters f = false).
  { unfold filterStateToUrlParams, hasActiveFilters. case_filters f; simpl;
      (split; intros H; [discriminate H || reflexivity | discriminate H || reflexivity]). }
  split; [exact H |]. rewrite <- H. apply query_url_bare.
Qed.

(** [validatePriceRange] accepts a range exactly when both prices lie in
    [0, 1000000] and the minimum is at most the maximum unless the maximum
    is 0; it gives an error message exactly when it rejects. *)
Theorem validatePriceRange_valid mn mx :
  (fst (validatePriceRange mn mx) = true
   <-> 0 <= mn <= 1000000 /\ 0 <= mx <= 1000000 /\ (mx = 0 \/ mn <= mx))
  /\ (snd (validatePriceRange mn mx) = None <-> fst (validatePriceRange mn mx) = true).
Proof.
  split; [apply validatePriceRange_iff |].
  unfold validatePriceRange.
  destruct ((mn <? 0) || (mx <? 0)); simpl; [split; discriminate |].
  destruct ((mx <? mn) && (0 <? mx)); simpl; [split; discriminate |].
  destruct ((1000000 <? mn) || (1000000 <? mx)); simpl; [split; discriminate | tauto].
Qed.

(** [filterStateToSearchParams]: a filter state whose trimmed texts fit the
    schema's lengths and whose price range [validatePriceRange] accepts,
    with a page in [1, 1000] and a limit in [1, 100], gives parameters that
    [validateSearchParams] returns unchanged. *)
Theorem filterStateToSearchParams_valid N f page limit :
  (String.length (trim (fs_query f)) <= 200)%nat ->
  (String.length (trim (fs_category f)) <= 100)%nat ->
  (String.length (trim (fs_location f)) <= 100)%nat ->
  fst (validatePriceRange (pr_min (fs_priceRange f)) (pr_max (fs_priceRange f))) = true ->
  1 <= page <= 1000 -> 1 <= limit <= 100 ->
  validateSearchParams N (filterStateToSearchParams f page limit)
  = Some (filterStateToSearchParams f page limit).
Proof. apply filterStateToSearchParams_validates. Qed.

Lemma filterStateToSearchParams_valid_witness :
  let f := {| fs_query := " lamp "; fs_category := "Home"; fs_location := "";
              fs_priceRange := {| pr_min := 5; pr_max := 0 |} |} in
  (String.length (trim (fs_query f)) <= 200)%nat
  /\ (String.length (trim (fs_category f)) <= 100)%nat
  /\ (String.length (trim (fs_location f)) <= 100)%nat
  /\ fst (validatePriceRange (pr_min (fs_priceRange f)) (pr_max (fs_priceRange f))) = true
  /\ 1 <= 2 <= 1000 /\ 1 <= 20 <= 100
  /\ validateSearchParams js_Number (filterStateToSearchParams f 2 20)
     = Some (filterStateToSearchParams f 2 20).
Proof.
  intros f.
  split; [vm_compute; lia | split; [vm_compute; lia | split; [vm_compute; lia |]]].
  split; [reflexivity | split; [lia | split; [lia |]]].
  apply (filterStateToSearchParams_valid js_Number f 2 20);
    [vm_compute; lia | vm_compute; lia | vm_compute; lia | reflexivity | lia | lia].
Defined.

(** Every filter state built by [urlParamsToFilterState] or
    [clearAllFilters] keeps its texts within 200/100/100 characters and its
    prices within [0, 1000000], and [removeFilter] and a successful
    [updateFilter] keep these bounds. *)
Theorem filter_state_bounds_invariant :
  (forall pf sp, filter_state_ok (urlParamsToFilterState pf sp))
  /\ filter_state_ok clearAllFilters
  /\ (forall f t, filter_state_ok f -> filter_state_ok (removeFilter f t))
  /\ (forall N f t v f', filter_state_ok f -> updateFilter N f t v = Some f' ->
                         filter_state_ok f').
Proof.
  split; [apply filter_state_ok_url |].
  split; [apply filter_state_ok_clear |].
  split; [apply filter_state_ok_remove | apply filter_state_ok_update].
Qed.

(** [areFiltersEqual] holds exactly for equal filter states. *)
Theorem areFiltersEqual_iff f g : areFiltersEqual f g = true <-> f = g.
Proof.
  destruct f as [q c l [mn mx]], g as [q' c' l' [mn' mx']].
  unfold areFiltersEqual. simpl.
  rewrite !andb_true_iff, !String.eqb_eq, !Z.eqb_eq. split.
  - intros ((((-> & ->) & ->) & ->) & ->). reflexivity.
  - intros H. injection H as -> -> -> -> ->. tauto.
Qed.

End FiltersMore.

(** ** The validation layer, further *)
Module ValidationMore.

Lemma safeParse_text_fields N o d :
  SearchParamsSchema_safeParse N o = Some d ->
  zstring_trim_max 200 (obj_get o "q") = Some (sp_q d)
  /\ zstring_trim_max 100 (obj_get o "category") = Some (sp_category d)
  /\ zstring_trim_max 100 (obj_get o "location") = Some (sp_location d).
Proof.
  unfold SearchParamsSchema_safeParse.
  destruct (zstring_trim_max 200 _), (zstring_trim_max 100 (obj_get o "category")),
    (zoptional (znumber_range N 0 1000000) (obj_get o "min")),
    (zoptional (znumber_range N 0 1000000) (obj_get o "max")),
    (zstring_trim_max 100 (obj_get o "location")),
    (zdefault 1 (znumber_range N 1 1000) (obj_get o "page")),
    (zoptional (fun x => zdefault 20 (znumber_range N 1 100) (Some x))
       (obj_get o "limit")); try discriminate.
  destruct (min_le_max _ _); [| discriminate].
  intros [= <-]. simpl. auto.
Qed.

Lemma zstring_revalidate n v x :
  zstring_trim_max n v = Some x -> zstring_trim_max n (option_map JStr x) = Some x.
Proof.
  destruct v as [[s|m]|]; simpl; intros H; [| discriminate | now injection H as <-].
  destruct ((String.length (trim s) <=? n)%nat) eqn:E; [| discriminate].
  injection H as <-. simpl. now rewrite Trim.trim_idem, E.
Qed.

Lemma in_range_accepted N lo hi a :
  lo <= a <= hi -> znumber_range N lo hi (JNum a) = Some a.
Proof.
  intros H. unfold znumber_range. simpl.
  replace ((lo <=? a) && (a <=? hi)) with true by (symmetry; apply andb_true_iff; lia).
  reflexivity.
Qed.

Lemma zoptional_revalidate N lo hi v x :
  zoptional (znumber_range N lo hi) v = Some x ->
  zoptional (znumber_range N lo hi) (option_map JNum x) = Some x.
Proof.
  destruct x as [a|]; [| reflexivity]. intros H.
  apply Sanitizer.zoptional_range_bounds in H. simpl.
  now rewrite in_range_accepted.
Qed.

Lemma page_revalidate N v p :
  zdefault 1 (znumber_range N 1 1000) v = Some p ->
  zdefault 1 (znumber_range N 1 1000) (Some (JNum p)) = Some p.
Proof.
  intros H. simpl. apply in_range_accepted.
  destruct v as [x|]; simpl in H; [| injection H as <-; lia].
  eapply Sanitizer.znumber_range_bounds; eauto.
Qed.

Lemma limit_revalidate N v l :
  zoptional (fun x => zdefault 20 (znumber_range N 1 100) (Some x)) v = Some l ->
  zoptional (fun x => zdefault 20 (znumber_range N 1 100) (Some x))
    (option_map JNum l) = Some l.
Proof.
  destruct v as [x|]; simpl; intros H; [| now injection H as <-].
  destruct (znumber_range N 1 100 x) as [a|] eqn:E; simpl in H; [| discriminate].
  injection H as <-. simpl. apply Sanitizer.znumber_range_bounds in E.
  now rewrite in_range_accepted.
Qed.

Lemma safeParse_revalidates N o d :
  SearchParamsSchema_safeParse N o = Some d -> validateSearchParams N d = Some d.
Proof.
  intros H.
  destruct (safeParse_text_fields N o d H) as (Hq & Hc & Hl).
  destruct (Sanitizer.safeParse_inv N o d H) as (Hmin & Hmax & Hpage & Hlimit & Href).
  unfold validateSearchParams, SearchParamsSchema_safeParse.
  destruct (Search.params_object_get d) as (Gq & Gc & Gmin & Gmax & Gl & Gp & Glim).
  rewrite Gq, Gc, Gmin, Gmax, Gl, Gp, Glim.
  rewrite (zstring_revalidate _ _ _ Hq), (zstring_revalidate _ _ _ Hc),
    (zstring_revalidate _ _ _ Hl), (zoptional_revalidate _ _ _ _ _ Hmin),
    (zoptional_revalidate _ _ _ _ _ Hmax), (page_revalidate _ _ _ Hpage),
    (limit_revalidate _ _ _ Hlimit), Href.
  destruct d; reflexivity.
Qed.

Lemma processSearchParams_cases N dec raw :
  (exists o, SearchParamsSchema_safeParse N o = Some (processSearchParams N dec raw))
  \/ processSearchParams N dec raw = default_params.
Proof.
  unfold processSearchParams.
  destruct (SearchParamsSchema_safeParse N (as_object _)) as [d|] eqn:E1;
    [left; eauto |].
  destruct (SearchParamsSchema_safeParse N (salvage _ _)) as [d|] eqn:E2;
    [left; eauto | now right].
Qed.

Lemma processSearchParams_revalidates N dec raw :
  validateSearchParams N (processSearchParams N dec raw)
  = Some (processSearchParams N dec raw).
Proof.
  destruct (processSearchParams_cases N dec raw) as [[o Ho]|Hd].
  - eapply safeParse_revalidates; eauto.
  - rewrite Hd. reflexivity.
Qed.

Lemma remove_harmful_clean s c :
  In c (list_ascii_of_string (remove_harmful s)) -> is_harmful c = false.
Proof.
  induction s as [|a s IH]; simpl; [contradiction |].
  destruct (is_harmful a) eqn:E; simpl; [exact IH |].
  intros [<-|H]; auto.
Qed.

Lemma slice0_chars s n c :
  In c (list_ascii_of_string (slice0 s n)) -> In c (list_ascii_of_string s).
Proof.
  unfold slice0. revert s.
  induction n as [|n IH]; intros [|a s]; simpl; intros H; try contradiction.
  destruct H as [<-|H]; [now left | right; now apply IH].
Qed.

(** [SearchParamsSchema]: whatever the schema accepts, it accepts again
    unchanged once turned back into an object, so [validateSearchParams]
    returns a parsed value as it is. *)
Theorem SearchParamsSchema_idempotent N o d :
  SearchParamsSchema_safeParse N o = Some d -> validateSearchParams N d = Some d.
Proof. apply safeParse_revalidates. Qed.

Lemma SearchParamsSchema_idempotent_witness :
  let o := [("q", JStr " lamp "); ("min", JStr "5"); ("page", JStr "2")] in
  SearchParamsSchema_safeParse js_Number o
  = Some {| sp_q := Some "lamp"; sp_category := None; sp_min := Some 5;
            sp_max := None; sp_location := None; sp_page := 2; sp_limit := None |}
  /\ validateSearchParams js_Number
       {| sp_q := Some "lamp"; sp_category := None; sp_min := Some 5;
          sp_max := None; sp_location := None; sp_page := 2; sp_limit := None |}
     = Some {| sp_q := Some "lamp"; sp_category := None; sp_min := Some 5;
               sp_max := None; sp_location := None; sp_page := 2; sp_limit := None |}.
Proof.
  intros o. split; [vm_compute; reflexivity |].
  apply (SearchParamsSchema_idempotent js_Number o). vm_compute. reflexivity.
Defined.

(** The catalog page's use of [processSearchParams]: its output always
    passes [validateSearchParams] unchanged, so [search] on it never throws
    and counts the products matching that same output. *)
Theorem processSearchParams_search_ok N dec catalog raw :
  let p := processSearchParams N dec raw in
  validateSearchParams N p = Some p
  /\ isValidSearchParams N (params_object p) = true
  /\ exists res, search N catalog p = Some res
     /\ totalCount res = getProductCount catalog (buildWhereClause p (sanitized_query p)).
Proof.
  intros p. pose proof (processSearchParams_revalidates N dec raw) as H. fold p in H.
  split; [exact H |]. split.
  - unfold isValidSearchParams. unfold validateSearchParams in H. now rewrite H.
  - unfold search. rewrite H. eexists. split; reflexivity.
Qed.

(** [sanitizeSearchQuery]: the result holds none of the characters that
    [is_harmful] names (less-than, greater-than, double quote, single quote
    and ampersand), and has at most 200 characters. *)
Theorem sanitizeSearchQuery_clean q :
  (forall c, In c (list_ascii_of_string (sanitizeSearchQuery q)) -> is_harmful c = false)
  /\ (String.length (sanitizeSearchQuery q) <= 200)%nat.
Proof.
  split.
  - intros c Hc. apply slice0_chars in Hc. eapply remove_harmful_clean; eauto.
  - apply FiltersMore.slice0_length.
Qed.

End ValidationMore.

(** ** The search service, further *)
Module SearchMore.

Section SortFacts.
Context {A : Type} (before : A -> A -> bool) (R : A -> A -> Prop).
Hypothesis Hbefore : forall x y, before y x = true -> R y x.
Hypothesis Htotal : forall x y, before y x = false -> R x y.

Lemma insert_by_perm x l : Permutation (insert_by before x l) (x :: l).
Proof.
  induction l as [|y r IH]; simpl; [auto |].
  destruct (before y x); [| auto].
  exact (perm_trans (perm_skip y IH) (perm_swap x y r)).
Qed.

Lemma sort_by_perm l : Permutation (sort_by before l) l.
Proof.
  induction l as [|x r IH]; simpl; [auto |].
  exact (perm_trans (insert_by_perm x _) (perm_skip x IH)).
Qed.

Lemma insert_by_sorted x l : Sorted R l -> Sorted R (insert_by before x l).
Proof.
  induction l as [|y r IH]; simpl; intros H; [auto |].
  destruct (before y x) eqn:E.
  - apply Sorted_inv in H as [Hr Hy]. constructor; [now apply IH |].
    destruct r as [|z r']; simpl; [constructor; now apply Hbefore |].
    destruct (before z x); constructor; [now inversion Hy | now apply Hbefore].
  - constructor; [exact H | constructor; now apply Htotal].
Qed.

Lemma sort_by_sorted l : Sorted R (sort_by before l).
Proof. induction l as [|x r IH]; simpl; [auto | now apply insert_by_sorted]. Qed.

End SortFacts.

Lemma Sorted_skipn {A} (R : A -> A -> Prop) n l : Sorted R l -> Sorted R (skipn n l).
Proof.
  revert l. induction n as [|n IH]; intros [|a l] H; simpl; auto.
  apply Sorted_inv in H as [H _]. now apply IH.
Qed.

Lemma Sorted_firstn {A} (R : A -> A -> Prop) n l : Sorted R l -> Sorted R (firstn n l).
Proof.
  revert l. induction n as [|n IH]; intros [|a l] H; simpl; auto.
  apply Sorted_inv in H as [Hl Ha]. constructor; [now apply IH |].
  destruct n, l; simpl; auto. inversion Ha. now constructor.
Qed.

Lemma product_before_total x y :
  product_before y x = false -> product_before x y = true.
Proof.
  unfold product_before. intros H. apply orb_false_iff in H as [H1 H2].
  apply Z.ltb_ge in H1.
  destruct (Z.ltb_spec (pr_createdAt y) (pr_createdAt x)); [reflexivity |].
  simpl. assert (Ec : pr_createdAt x = pr_createdAt y) by lia.
  rewrite Ec, Z.eqb_refl in *. simpl in *.
  rewrite String.compare_antisym.
  destruct (String.compare (pr_id y) (pr_id x)); simpl; congruence.
Qed.

Lemma sorted_products l :
  Sorted (fun a b => product_before a b = true) (sort_by product_before l).
Proof.
  apply sort_by_sorted; [auto |]. intros x y H. now apply product_before_total.
Qed.

Lemma distinct_In v l : In v (distinct l) <-> In v l.
Proof.
  induction l as [|x r IH]; simpl; [tauto |].
  rewrite filter_In, IH, negb_true_iff, String.eqb_neq. split.
  - intros [H|[H _]]; auto.
  - intros [H|H]; [now left |]. destruct (String.eqb_spec v x); [left; congruence | auto].
Qed.

Lemma distinct_NoDup l : NoDup (distinct l).
Proof.
  induction l as [|x r IH]; simpl; constructor.
  - rewrite filter_In, String.eqb_refl. simpl. intros [_ H]. discriminate H.
  - now apply NoDup_filter.
Qed.

Lemma count_value_cnt key ps v : count_value key ps v = cnt (map key ps) v.
Proof.
  unfold count_value, cnt. induction ps as [|p r IH]; simpl; [reflexivity |].
  destruct (String.eqb (key p) v); simpl; congruence.
Qed.

Lemma cnt_absent l v : ~ In v l -> cnt l v = 0%nat.
Proof.
  unfold cnt. induction l as [|x r IH]; simpl; intros H; [reflexivity |].
  destruct (String.eqb_spec x v); [tauto |]. apply IH. tauto.
Qed.

Lemma filter_neq_absent (D : list string) x :
  ~ In x D -> filter (fun y => negb (String.eqb y x)) D = D.
Proof.
  induction D as [|y D IH]; simpl; intros H; [reflexivity |].
  destruct (String.eqb_spec y x); [tauto |]. simpl. f_equal. apply IH. tauto.
Qed.

Lemma sum_split (D : list string) (f : string -> nat) x :
  NoDup D -> (~ In x D -> f x = 0%nat) ->
  list_sum (map f D)
  = (f x + list_sum (map f (filter (fun y => negb (String.eqb y x)) D)))%nat.
Proof.
  induction D as [|y D IH]; simpl; intros Hnd Hx; [rewrite Hx; auto |].
  inversion Hnd as [|? ? Hy Hnd']; subst.
  destruct (String.eqb_spec y x) as [->|Hne]; simpl.
  - now rewrite filter_neq_absent.
  - rewrite IH; auto; [lia |]. intros H. apply Hx. intros [E|E]; [congruence | tauto].
Qed.

Lemma sum_distinct l : list_sum (map (cnt l) (distinct l)) = length l.
Proof.
  induction l as [|x r IH]; simpl; [reflexivity |].
  assert (Hx : cnt (x :: r) x = S (cnt r x))
    by (unfold cnt; simpl; now rewrite String.eqb_refl).
  rewrite Hx.
  rewrite (map_ext_in (cnt (x :: r)) (cnt r)).
  2:{ intros y Hy. apply filter_In in Hy as [_ Hy].
      apply negb_true_iff, String.eqb_neq in Hy.
      unfold cnt. simpl. destruct (String.eqb_spec x y); [congruence | reflexivity]. }
  rewrite (sum_split (distinct r) (cnt r) x (distinct_NoDup r)) in IH.
  - lia.
  - intros H. apply cnt_absent. now rewrite <- distinct_In.
Qed.

Lemma group_count_props key ps :
  let g := group_count key ps in
  NoDup (map fst g) /\ (forall v n, In (v, n) g -> (1 <= n)%nat)
  /\ Sorted (fun a b => (snd b <= snd a)%nat) g
  /\ list_sum (map snd g) = length ps.
Proof.
  intros g.
  set (before := fun a b : string * nat => (snd b <? snd a)%nat).
  set (D := distinct (map key ps)).
  assert (P : Permutation g (map (fun v => (v, count_value key ps v)) D))
    by apply sort_by_perm.
  split; [| split; [| split]].
  - apply (Permutation_NoDup (Permutation_map fst (Permutation_sym P))).
    rewrite map_map. simpl. rewrite map_id. apply distinct_NoDup.
  - intros v n H. apply (Permutation_in _ P), in_map_iff in H as (v' & Heq & Hv).
    injection Heq as <- <-. apply distinct_In, in_map_iff in Hv as (p & Hk & Hp).
    unfold count_value.
    assert (Hin : In p (filter (fun q => String.eqb (key q) v') ps))
      by (apply filter_In; split; [exact Hp | now apply String.eqb_eq]).
    destruct (filter _ ps); [contradiction | simpl; lia].
  - apply sort_by_sorted.
    + intros x y H. apply Nat.ltb_lt in H. lia.
    + intros x y H. apply Nat.ltb_ge in H. exact H.
  - rewrite (Permutation_list_sum (Permutation_map snd P)).
    rewrite map_map. simpl.
    rewrite (map_ext _ _ (count_value_cnt key ps)).
    apply eq_trans with (length (map key ps)); [apply sum_distinct | apply length_map].
Qed.

Lemma chunks {A} (L : list A) lim k :
  (length L <= k * lim)%nat ->
  concat (map (fun i => firstn lim (skipn (i * lim) L)) (seq 0 k)) = L.
Proof.
  revert L. induction k as [|k IH]; intros L H.
  - simpl. destruct L; simpl in *; [reflexivity | lia].
  - simpl. rewrite <- seq_shift, map_map.
    rewrite (map_ext (fun i => firstn lim (skipn (S i * lim) L))
                     (fun i => firstn lim (skipn (i * lim) (skipn lim L)))).
    2:{ intros i. rewrite skipn_skipn. f_equal. f_equal. lia. }
    rewrite IH; [apply firstn_skipn |]. rewrite length_skipn. simpl in H. lia.
Qed.

(** [getCategoryFacets] and [getLocationFacets]: the facet values are
    distinct, every count is at least 1, the facets come in order of
    non-increasing count, and the counts add up to the number of products
    matching the facet's [where] clause. *)
Theorem facets_partition catalog w g :
  g = getCategoryFacets catalog w \/ g = getLocationFacets catalog w ->
  NoDup (map fst g) /\ (forall v n, In (v, n) g -> (1 <= n)%nat)
  /\ Sorted (fun a b => (snd b <= snd a)%nat) g
  /\ list_sum (map snd g) = getProductCount catalog w.
Proof.
  intros [->| ->]; apply group_count_props.
Qed.

Lemma facets_partition_witness :
  let w := {| w_OR := None; w_category := None; w_location := None;
              w_price := None |} in
  (getCategoryFacets sample_catalog w = getCategoryFacets sample_catalog w
   \/ getCategoryFacets sample_catalog w = getLocationFacets sample_catalog w)
  /\ (let g := getCategoryFacets sample_catalog w in
      NoDup (map fst g) /\ (forall v n, In (v, n) g -> (1 <= n)%nat)
      /\ Sorted (fun a b => (snd b <= snd a)%nat) g
      /\ list_sum (map snd g) = getProductCount sample_catalog w).
Proof.
  intros w. split; [now left |].
  apply (facets_partition sample_catalog w). now left.
Defined.

(** [executeProductSearch]: a page is in the [orderBy] order (newest
    first, then by id) and holds at most [limit] products. *)
Theorem executeProductSearch_page_sorted catalog w skip limit :
  Sorted (fun a b => product_before a b = true)
    (executeProductSearch catalog w skip limit)
  /\ (length (executeProductSearch catalog w skip limit) <= Z.to_nat limit)%nat.
Proof.
  unfold executeProductSearch. split.
  - apply Sorted_firstn, Sorted_skipn, sorted_products.
  - apply firstn_le_length.
Qed.

(** [executeProductSearch] with the [skip] of [search], [(page - 1) * limit]:
    the pages 1 to [totalPages] of [calculatePagination], put end to end,
    give every matching product exactly once, in order. *)
Theorem executeProductSearch_pages catalog w limit :
  1 <= limit ->
  let tp := pm_totalPages
              (calculatePagination (Z.of_nat (getProductCount catalog w)) 1 limit) in
  concat (map (fun page => executeProductSearch catalog w ((page - 1) * limit) limit)
            (range_incl 1 tp))
  = sort_by product_before (filter (where_matches w) catalog).
Proof.
  intros Hl tp. destruct (PaginationMore.zpos_of_ge1 limit Hl) as [p ->].
  set (L := sort_by product_before (filter (where_matches w) catalog)).
  assert (Hlen : length L = getProductCount catalog w)
    by (apply Permutation_length, sort_by_perm).
  pose proof (Pagination.ceiling_bounds (Z.of_nat (getProductCount catalog w)) p)
    as [Hlo Hhi].
  unfold tp, calculatePagination in *. simpl in *.
  set (t := Qceiling _) in *.
  unfold executeProductSearch, range_incl. fold L. rewrite map_map.
  rewrite (map_ext _ (fun i => firstn (Pos.to_nat p) (skipn (i * Pos.to_nat p) L))).
  2:{ intros i. replace (1 + Z.of_nat i - 1) with (Z.of_nat i) by lia.
      rewrite Z2Nat.inj_mul, Nat2Z.id, Z2Nat.inj_pos by lia. reflexivity. }
  apply chunks.
  replace (Z.to_nat (t - 1 + 1)) with (Z.to_nat t) by lia.
  rewrite Hlen. apply Nat2Z.inj_le.
  rewrite Nat2Z.inj_mul, positive_nat_Z.
  assert (0 <= t) by nia. rewrite Z2Nat.id by lia. lia.
Qed.

Lemma executeProductSearch_pages_witness :
  let w := {| w_OR := None; w_category := None; w_location := None;
              w_price := None |} in
  1 <= 2 /\
  (let tp := pm_totalPages
               (calculatePagination (Z.of_nat (getProductCount sample_catalog w)) 1 2) in
   concat (map (fun page => executeProductSearch sample_catalog w ((page - 1) * 2) 2)
             (range_incl 1 tp))
   = sort_by product_before (filter (where_matches w) sample_catalog)).
Proof. intros w. split; [lia | apply (executeProductSearch_pages sample_catalog w 2); lia]. Defined.

End SearchMore.

(** ** Catalog URLs *)

Module CatalogUrlMore.

Lemma str_app_assoc (a b c : string) : (a ++ b) ++ c = a ++ (b ++ c).
Proof. induction a as [|x a IH]; simpl; [reflexivity | now rewrite IH]. Qed.

Lemma str_app_nil_r (a : string) : a ++ "" = a.
Proof. induction a as [|x a IH]; simpl; [reflexivity | now rewrite IH]. Qed.

Lemma truthy_app_l (a b : string) : truthy a = true -> truthy (a ++ b) = true.
Proof. destruct a; [discriminate | reflexivity]. Qed.

Lemma concat_snoc sep (xs : list string) y :
  String.concat sep (xs ++ [y]) =
  String.concat sep xs ++ (match xs with [] => "" | _ => sep end) ++ y.
Proof.
  induction xs as [|x xs IH]; [reflexivity |].
  destruct xs as [|x' xs].
  - reflexivity.
  - simpl app. simpl app in IH.
    change (String.concat sep (x :: x' :: xs ++ [y]))
      with (x ++ sep ++ String.concat sep (x' :: xs ++ [y])).
    rewrite IH. change (String.concat sep (x :: x' :: xs))
      with (x ++ sep ++ String.concat sep (x' :: xs)).
    now rewrite !str_app_assoc.
Qed.

(** Appending one entry to a query adds it after an [&], or alone. *)
Lemma usp_toString_snoc fe l k v :
  usp_toString fe (l ++ [(k, v)]) =
  usp_toString fe l ++ (match l with [] => "" | _ => "&" end)
    ++ fe k ++ "=" ++ fe v.
Proof.
  unfold usp_toString. rewrite map_app. cbn [map fst snd]. rewrite concat_snoc.
  destruct l; reflexivity.
Qed.

Lemma text_param_none enc v :
  text_param enc v = None <-> v = None \/ v = Some "".
Proof.
  unfold text_param. destruct v as [s|].
  - destruct (String.eqb_spec s "") as [->|E]; split; intros H; try discriminate; auto.
    destruct H as [H|H]; inversion H; contradiction.
  - tauto.
Qed.

Lemma num_param_none toS v :
  num_param toS v = None <-> v = None \/ v = Some 0.
Proof.
  unfold num_param. destruct v as [n|].
  - destruct (Z.eqb_spec n 0) as [->|E]; split; intros H; try discriminate; auto.
    destruct H as [H|H]; inversion H; contradiction.
  - tauto.
Qed.

Ltac case_params enc toS sp :=
  unfold catalog_params; cbv zeta;
  destruct (text_param enc (sp_q sp)), (text_param enc (sp_category sp)),
    (text_param enc (sp_location sp)), (num_param toS (sp_min sp)),
    (num_param toS (sp_max sp)); simpl.

(** Without the page, no entry of the catalog query is named [page]. *)
Lemma catalog_params_no_page enc toS sp :
  forallb (fun kv => negb (String.eqb (fst kv) "page"))
    (catalog_params enc toS sp false) = true.
Proof. case_params enc toS sp; reflexivity. Qed.

Lemma usp_set_absent l k v :
  forallb (fun kv => negb (String.eqb (fst kv) k)) l = true ->
  usp_set l k v = (l ++ [(k, v)])%list.
Proof.
  induction l as [|[k' v'] r IH]; simpl; [reflexivity |].
  intros H. apply andb_prop in H as [H1 H2].
  destruct (String.eqb k' k); [discriminate H1 |]. now rewrite IH.
Qed.

Lemma catalog_params_page enc toS sp :
  catalog_params enc toS sp true =
  (catalog_params enc toS sp false
    ++ (if 1 <? sp_page sp then [("page", toS (sp_page sp))] else []))%list.
Proof.
  pose proof (catalog_params_no_page enc toS sp) as Hn.
  unfold catalog_params in *. cbv zeta in *. simpl andb.
  destruct (1 <? sp_page sp).
  - now apply usp_set_absent.
  - now rewrite app_nil_r.
Qed.

Lemma catalog_params_nil enc toS sp ip :
  catalog_params enc toS sp ip = [] <->
  text_param enc (sp_q sp) = None /\ text_param enc (sp_category sp) = None
  /\ text_param enc (sp_location sp) = None /\ num_param toS (sp_min sp) = None
  /\ num_param toS (sp_max sp) = None /\ (ip && (1 <? sp_page sp)) = false.
Proof.
  unfold catalog_params; cbv zeta.
  destruct (ip && (1 <? sp_page sp)).
  - split; [intros H; exfalso; now apply PaginationMore.usp_set_not_nil in H |].
    intros (_ & _ & _ & _ & _ & H). discriminate H.
  - destruct (text_param enc (sp_q sp)), (text_param enc (sp_category sp)),
      (text_param enc (sp_location sp)), (num_param toS (sp_min sp)),
      (num_param toS (sp_max sp)); simpl;
      split; intros H; try discriminate H;
      try (destruct H as (H1 & H2 & H3 & H4 & H5 & _); discriminate);
      repeat split; reflexivity.
Qed.

(** [buildCatalogUrl(baseUrl, searchParams, true)] is the canonical URL of
    [buildCanonicalUrl(baseUrl, searchParams)] with [page=N] appended when
    the page [N] is above 1, after a [?] if the canonical URL has no query
    and after an [&] otherwise; for a page of 1 or less the two URLs are
    the same. *)
Theorem buildCatalogUrl_page_suffix enc fe toS ch base sp href :
  ch base = Some href ->
  buildCatalogUrl enc fe toS ch base sp true =
  buildCanonicalUrl enc fe toS ch base sp ++
    (if 1 <? sp_page sp
     then (if String.eqb (buildCanonicalUrl enc fe toS ch base sp) href
           then "?" else "&") ++ fe "page" ++ "=" ++ fe (toS (sp_page sp))
     else "").
Proof.
  intros Hb. unfold buildCanonicalUrl, buildCatalogUrl. rewrite Hb.
  rewrite catalog_params_page.
  destruct (1 <? sp_page sp); [| now rewrite app_nil_r, str_app_nil_r].
  rewrite usp_toString_snoc.
  destruct (catalog_params enc toS sp false) as [|e l] eqn:El.
  - assert (Hp : truthy (fe "page" ++ "=" ++ fe (toS (sp_page sp))) = true).
    { unfold truthy.
      destruct (String.eqb_spec (fe "page" ++ "=" ++ fe (toS (sp_page sp))) "") as [E2|E2];
        [| reflexivity].
      apply PaginationMore.append_eq_empty in E2 as [_ E2]. discriminate E2. }
    revert Hp. generalize (fe "page" ++ "=" ++ fe (toS (sp_page sp))). intros P Hp.
    simpl. rewrite Hp, String.eqb_refl. reflexivity.
  - assert (Hq : truthy (usp_toString fe (e :: l)) = true).
    { unfold truthy. destruct (String.eqb_spec (usp_toString fe (e :: l)) "") as [E|E];
        [apply PaginationMore.usp_toString_empty in E; discriminate | reflexivity]. }
    rewrite Hq, (truthy_app_l _ _ Hq).
    assert (Eh : String.eqb (href ++ "?" ++ usp_toString fe (e :: l)) href = false).
    { apply String.eqb_neq. intros Eh. apply (f_equal String.length) in Eh.
      rewrite PaginationMore.str_length_app in Eh. simpl in Eh. lia. }
    rewrite Eh. change (match e :: l with [] => "" | _ => "&" end) with "&".
    now rewrite !str_app_assoc.
Qed.

(** The sample setting of the witnesses: an accepted base URL, encoders
    that keep the text. *)
Definition sample_href (b : string) : option string := Some (b ++ "/catalog").

Lemma buildCatalogUrl_page_suffix_witness :
  sample_href "http://localhost:3000" = Some "http://localhost:3000/catalog" /\
  buildCatalogUrl (fun s => Some s) (fun s => s) decimal_toString sample_href
    "http://localhost:3000"
    {| sp_q := Some "lamp"; sp_category := None; sp_min := Some 0;
       sp_max := Some 90; sp_location := Some ""; sp_page := 3;
       sp_limit := Some 20 |} true =
  buildCanonicalUrl (fun s => Some s) (fun s => s) decimal_toString sample_href
    "http://localhost:3000"
    {| sp_q := Some "lamp"; sp_category := None; sp_min := Some 0;
       sp_max := Some 90; sp_location := Some ""; sp_page := 3;
       sp_limit := Some 20 |} ++
  (if 1 <? 3
   then (if String.eqb (buildCanonicalUrl (fun s => Some s) (fun s => s)
                          decimal_toString sample_href "http://localhost:3000"
                          {| sp_q := Some "lamp"; sp_category := None;
                             sp_min := Some 0; sp_max := Some 90;
                             sp_location := Some ""; sp_page := 3;
                             sp_limit := Some 20 |}) "http://localhost:3000/catalog"
         then "?" else "&") ++ "page" ++ "=" ++ decimal_toString 3
   else "").
Proof.
  split; [reflexivity |].
  apply (buildCatalogUrl_page_suffix (fun s => Some s) (fun s => s)
           decimal_toString sample_href "http://localhost:3000"
           {| sp_q := Some "lamp"; sp_category := None; sp_min := Some 0;
              sp_max := Some 90; sp_location := Some ""; sp_page := 3;
              sp_limit := Some 20 |} "http://localhost:3000/catalog").
  reflexivity.
Defined.

(** For an accepted base URL, [buildCatalogUrl] gives the bare
    [/catalog] href exactly when [q], [category] and [location] are absent
    or empty, [min] and [max] are absent or 0, and the page is not
    included (not requested, or not above 1). *)
Theorem buildCatalogUrl_bare enc fe toS ch base sp ip href :
  ch base = Some href ->
  buildCatalogUrl enc fe toS ch base sp ip = href <->
  (sp_q sp = None \/ sp_q sp = Some "")
  /\ (sp_category sp = None \/ sp_category sp = Some "")
  /\ (sp_location sp = None \/ sp_location sp = Some "")
  /\ (sp_min sp = None \/ sp_min sp = Some 0)
  /\ (sp_max sp = None \/ sp_max sp = Some 0)
  /\ (ip = false \/ sp_page sp <= 1).
Proof.
  intros Hb. unfold buildCatalogUrl. rewrite Hb.
  rewrite FiltersMore.query_url_bare, catalog_params_nil,
    !text_param_none, !num_param_none.
  assert (Hp : (ip && (1 <? sp_page sp)) = false <-> ip = false \/ sp_page sp <= 1).
  { destruct ip; simpl; [| tauto].
    destruct (Z.ltb_spec 1 (sp_page sp)); split; intros Hl; try discriminate; auto; lia. }
  rewrite Hp. tauto.
Qed.

Lemma buildCatalogUrl_bare_witness :
  sample_href "https://shop.example" = Some "https://shop.example/catalog" /\
  (buildCatalogUrl (fun s => Some s) (fun s => s) decimal_toString sample_href
     "https://shop.example" default_params true = "https://shop.example/catalog" <->
   (sp_q default_params = None \/ sp_q default_params = Some "")
   /\ (sp_category default_params = None \/ sp_category default_params = Some "")
   /\ (sp_location default_params = None \/ sp_location default_params = Some "")
   /\ (sp_min default_params = None \/ sp_min default_params = Some 0)
   /\ (sp_max default_params = None \/ sp_max default_params = Some 0)
   /\ (true = false \/ sp_page default_params <= 1)).
Proof.
  split; [reflexivity |].
  apply (buildCatalogUrl_bare (fun s => Some s) (fun s => s) decimal_toString
           sample_href "https://shop.example" default_params true
           "https://shop.example/catalog").
  reflexivity.
Defined.

End CatalogUrlMore.
